(** * The X11 digest chain of [contrib/x11/hashblock.h]

    [HashX11] hashes a byte range with BLAKE-512, re-hashes the 64-byte
    digest with Groestl-512, CubeHash-512, SHAvite-512 and Echo-512 in
    turn, and copies the first 32 bytes of the last digest to the caller.

    The header works on raw pointers: the input range, the rows of the
    automatic array [hash], the function-local static [pblank] and the
    caller's result buffer.  The embedding keeps them: memory is a family
    of byte blocks, a pointer is a block and an offset, every access is
    bounds-checked and an access outside its block (undefined behaviour
    in C++) stops the run.  The five sphlib primitives are not part of the
    header; they are taken as parameters through their three calls. *)

From Stdlib Require Import ZArith Lia.
From Stdlib Require Import Init.Byte Strings.Byte.
From stdpp Require Import base option list.

Local Open Scope nat_scope.

(** ** Constants of the header *)

Definition HASH512_SIZE : nat := 64.
Definition HASH256_SIZE : nat := 32.

(** [size_t] is taken to be 64 bits wide. *)
Definition SIZE_WIDTH : Z := 64.
Definition to_size_t (z : Z) : Z := (z mod 2 ^ SIZE_WIDTH)%Z.

(** ** Memory *)

#[global] Instance byte_eq_decision : EqDecision byte := byte_eq_dec.

(** The objects [HashX11] can name: its static [pblank], its automatic
    array [hash], and whatever the caller owns. *)
Inductive block : Type :=
  | Static_pblank
  | Local_hash
  | Caller (n : nat).

#[global] Instance block_eq_dec : EqDecision block.
Proof. solve_decision. Defined.

Definition ptr : Type := block * nat.

Definition ptr_add (p : ptr) (i : nat) : ptr := (p.1, p.2 + i).

#[global] Instance ptr_eq_dec : EqDecision ptr.
Proof. solve_decision. Defined.

Definition mem : Type := block → list byte.

Definition mem_set (m : mem) (b : block) (l : list byte) : mem :=
  λ b', if decide (b' = b) then l else m b'.

(** [n] bytes starting at [p]; nothing when the range leaves the block. *)
Definition load (m : mem) (p : ptr) (n : nat) : option (list byte) :=
  if decide (p.2 + n ≤ length (m p.1))
  then Some (take n (drop p.2 (m p.1)))
  else None.

Definition splice (o : nat) (bs l : list byte) : list byte :=
  take o l ++ bs ++ drop (o + length bs) l.

(** Overwrite [length bs] bytes starting at [p]. *)
Definition store (m : mem) (p : ptr) (bs : list byte) : option mem :=
  if decide (p.2 + length bs ≤ length (m p.1))
  then Some (mem_set m p.1 (splice p.2 bs (m p.1)))
  else None.

(** ** What a run leaves behind: the memory and the primitive calls made *)

Inductive algo : Type :=
  | Blake512
  | Groestl512
  | CubeHash512
  | SHAvite512
  | Echo512.

#[global] Instance algo_eq_dec : EqDecision algo.
Proof. solve_decision. Defined.

(** One entry per sphlib call, with the pointer and length arguments as
    passed and the bytes that moved. *)
Inductive event : Type :=
  | EvInit (a : algo)
  | EvUpdate (a : algo) (data : ptr) (len : Z) (bytes : list byte)
  | EvClose (a : algo) (dst : ptr) (digest : list byte).

Record state : Type := mkState {
  st_mem : mem;
  st_log : list event
}.

(** ** A state monad with failure *)

Definition M (A : Type) : Type := state → option (A * state).

Definition mret {A} (a : A) : M A := λ s, Some (a, s).

Definition mbind' {A B} (c : M A) (k : A → M B) : M B :=
  λ s, match c s with
       | Some (a, s') => k a s'
       | None => None
       end.

Declare Scope m_scope.
Delimit Scope m_scope with M.
Notation "'let*' x := c 'in' k" := (mbind' c (λ x, k))
  (at level 10, x name, c at level 100, k at level 200) : m_scope.
Notation "c ;;; k" := (mbind' c (λ _, k))
  (at level 100, k at level 200, right associativity) : m_scope.

Definition log_event (e : event) : M unit :=
  λ s, Some (tt, mkState (st_mem s) (st_log s ++ [e])).

Definition load_byte (p : ptr) : M byte :=
  λ s, match st_mem s p.1 !! p.2 with
       | Some x => Some (x, s)
       | None => None
       end.

Definition store_byte (p : ptr) (x : byte) : M unit :=
  λ s, match store (st_mem s) p [x] with
       | Some m' => Some (tt, mkState m' (st_log s))
       | None => None
       end.

(** ** [trim256] *)

(** The body of the [for] loop, run for [i], [i+1], ..., [i+n-1]. *)
Fixpoint trim256_loop (pn ret : ptr) (i n : nat) : M unit :=
  match n with
  | O => mret tt
  | S n' =>
      (let* x := load_byte (ptr_add pn i) in
       store_byte (ptr_add ret i) x ;;;
       trim256_loop pn ret (S i) n')%M
  end.

Definition trim256 (pn ret : ptr) : M unit :=
  trim256_loop pn ret 0 HASH256_SIZE.

(** ** The sphlib primitives, as the header uses them *)

(** A primitive is reached through three calls: [sph_X_init(&cc)],
    [sph_X(&cc, data, len)] and [sph_X_close(&cc, dst)].  [sph_update] is
    what the second call does to the context with the [len] bytes it reads
    from [data]; [sph_close] is the byte string the third call writes to
    [dst]. *)
Record sph_hash : Type := mkSph {
  sph_context : Type;
  sph_init : sph_context;
  sph_update : sph_context → list byte → sph_context;
  sph_close : sph_context → list byte
}.

(** [sph_X_init(&cc)] *)
Definition sph_init_call (a : algo) (h : sph_hash) : M (sph_context h) :=
  (log_event (EvInit a) ;;; mret (sph_init h))%M.

(** [sph_X(&cc, data, len)] *)
Definition sph_call (a : algo) (h : sph_hash) (cc : sph_context h)
    (data : ptr) (len : Z) : M (sph_context h) :=
  λ s, match load (st_mem s) data (Z.to_nat len) with
       | Some bs =>
           Some (sph_update h cc bs,
                 mkState (st_mem s) (st_log s ++ [EvUpdate a data len bs]))
       | None => None
       end.

(** [sph_X_close(&cc, dst)] *)
Definition sph_close_call (a : algo) (h : sph_hash) (cc : sph_context h)
    (dst : ptr) : M unit :=
  λ s, match store (st_mem s) dst (sph_close h cc) with
       | Some m' =>
           Some (tt, mkState m' (st_log s ++ [EvClose a dst (sph_close h cc)]))
       | None => None
       end.

(** [p - q] for two pointers into the same object. *)
Definition ptr_diff (p q : ptr) : M Z :=
  λ s, if decide (p.1 = q.1)
       then Some ((Z.of_nat p.2 - Z.of_nat q.2)%Z, s)
       else None.

(** ** [HashX11] *)

(** [static unsigned char pblank[1]] *)
Definition pblank : ptr := (Static_pblank, 0).

(** [&hash[i]] in [unsigned char hash[5][HASH512_SIZE]] *)
Definition hash (i : nat) : ptr := (Local_hash, i * HASH512_SIZE).

(** The bytes of [hash] before anything is written to it: C++ leaves an
    automatic array indeterminate, [indeterminate k] is what its [k]-th
    byte happens to hold. *)
Definition fresh_hash (indeterminate : nat → byte) : list byte :=
  map indeterminate (seq 0 (5 * HASH512_SIZE)).

Section HashX11.

Variables blake512 groestl512 cubehash512 shavite512 echo512 : sph_hash.
Variable indeterminate : nat → byte.

(** [unsigned char hash[5][HASH512_SIZE];] *)
Definition declare_hash : M unit :=
  λ s, Some (tt, mkState
                   (mem_set (st_mem s) Local_hash
                      (fresh_hash indeterminate))
                   (st_log s)).

(** [inline bool HashX11(const unsigned char * pbegin,
                         const unsigned char * pend,
                         unsigned char * pResult)].
    The contexts [ctx_blake] ... [ctx_echo] are the values the calls hand
    on; the length of the first update is
    [(pend - pbegin) * sizeof(pbegin[0])] converted to [size_t], and its
    data pointer is [pbegin == pend ? pblank : &pbegin[0]]. *)
Definition HashX11 (pbegin pend pResult : ptr) : M bool :=
  (declare_hash ;;;

   let* ctx_blake := sph_init_call Blake512 blake512 in
   let* n := ptr_diff pend pbegin in
   let* ctx_blake :=
     sph_call Blake512 blake512 ctx_blake
       (if decide (pbegin = pend) then pblank else pbegin)
       (to_size_t (n * 1)) in
   sph_close_call Blake512 blake512 ctx_blake (hash 0) ;;;

   let* ctx_groestl := sph_init_call Groestl512 groestl512 in
   let* ctx_groestl :=
     sph_call Groestl512 groestl512 ctx_groestl (hash 0) 64 in
   sph_close_call Groestl512 groestl512 ctx_groestl (hash 1) ;;;

   let* ctx_cubehash := sph_init_call CubeHash512 cubehash512 in
   let* ctx_cubehash :=
     sph_call CubeHash512 cubehash512 ctx_cubehash (hash 1) 64 in
   sph_close_call CubeHash512 cubehash512 ctx_cubehash (hash 2) ;;;

   let* ctx_shavite := sph_init_call SHAvite512 shavite512 in
   let* ctx_shavite :=
     sph_call SHAvite512 shavite512 ctx_shavite (hash 2) 64 in
   sph_close_call SHAvite512 shavite512 ctx_shavite (hash 3) ;;;

   let* ctx_echo := sph_init_call Echo512 echo512 in
   let* ctx_echo := sph_call Echo512 echo512 ctx_echo (hash 3) 64 in
   sph_close_call Echo512 echo512 ctx_echo (hash 4) ;;;

   trim256 (hash 4) pResult ;;;
   mret true)%M.

End HashX11.


(** ** The chain, stage by stage *)

(** The digest a primitive gives for a whole message: init, one update,
    close. *)
Definition sph_digest (h : sph_hash) (bs : list byte) : list byte :=
  sph_close h (sph_update h (sph_init h) bs).

(** The primitive writes exactly 64 bytes on close. *)
Definition writes_512 (h : sph_hash) : Prop :=
  ∀ cc, length (sph_close h cc) = HASH512_SIZE.

(** The primitive writes at most 64 bytes on close. *)
Definition fits_row (h : sph_hash) : Prop :=
  ∀ cc, length (sph_close h cc) ≤ HASH512_SIZE.

(** Two primitives compute different functions. *)
Definition differ (h h' : sph_hash) : Prop :=
  ∃ bs, sph_digest h bs ≠ sph_digest h' bs.

(** The pointer is into an object of the caller. *)
Definition caller_owned (p : ptr) : Prop :=
  match p.1 with
  | Caller _ => True
  | _ => False
  end.

(** The bytes of the range [pbegin, pend). *)
Definition input_of (m : mem) (pbegin pend : ptr) : list byte :=
  take (pend.2 - pbegin.2) (drop pbegin.2 (m pbegin.1)).

(** What the caller of [HashX11] owes: [pbegin, pend) is a range inside
    one of its objects, and [pResult] has room for 32 bytes. *)
Definition valid_call (m : mem) (pbegin pend pResult : ptr) : Prop :=
  caller_owned pbegin
  ∧ pbegin.1 = pend.1
  ∧ pbegin.2 ≤ pend.2
  ∧ pend.2 ≤ length (m pbegin.1)
  ∧ (Z.of_nat (length (m pbegin.1)) < 2 ^ SIZE_WIDTH)%Z
  ∧ caller_owned pResult
  ∧ pResult.2 + HASH256_SIZE ≤ length (m pResult.1).

(** The 32 bytes at [pResult]. *)
Definition result_of (m : mem) (pResult : ptr) : list byte :=
  take HASH256_SIZE (drop pResult.2 (m pResult.1)).

Section Chain.

Variables blake512 groestl512 cubehash512 shavite512 echo512 : sph_hash.
Variable indeterminate : nat → byte.

(** The 64 bytes read back from [hash[i]] once [d] was written at its
    start: [d], then whatever the row held behind it. *)
Definition row_after (i : nat) (d : list byte) : list byte :=
  d ++ take (HASH512_SIZE - length d)
         (drop (i * HASH512_SIZE + length d) (fresh_hash indeterminate)).

Definition digest1 (input : list byte) : list byte :=
  sph_digest blake512 input.
Definition row1 (input : list byte) : list byte :=
  row_after 0 (digest1 input).
Definition digest2 (input : list byte) : list byte :=
  sph_digest groestl512 (row1 input).
Definition row2 (input : list byte) : list byte :=
  row_after 1 (digest2 input).
Definition digest3 (input : list byte) : list byte :=
  sph_digest cubehash512 (row2 input).
Definition row3 (input : list byte) : list byte :=
  row_after 2 (digest3 input).
Definition digest4 (input : list byte) : list byte :=
  sph_digest shavite512 (row3 input).
Definition row4 (input : list byte) : list byte :=
  row_after 3 (digest4 input).
Definition digest5 (input : list byte) : list byte :=
  sph_digest echo512 (row4 input).
Definition row5 (input : list byte) : list byte :=
  row_after 4 (digest5 input).

(** The calls of one run, given the data pointer of the first one. *)
Definition run_log (data : ptr) (input : list byte) : list event :=
  [ EvInit Blake512;
    EvUpdate Blake512 data (Z.of_nat (length input)) input;
    EvClose Blake512 (hash 0) (digest1 input);
    EvInit Groestl512;
    EvUpdate Groestl512 (hash 0) 64 (row1 input);
    EvClose Groestl512 (hash 1) (digest2 input);
    EvInit CubeHash512;
    EvUpdate CubeHash512 (hash 1) 64 (row2 input);
    EvClose CubeHash512 (hash 2) (digest3 input);
    EvInit SHAvite512;
    EvUpdate SHAvite512 (hash 2) 64 (row3 input);
    EvClose SHAvite512 (hash 3) (digest4 input);
    EvInit Echo512;
    EvUpdate Echo512 (hash 3) 64 (row4 input);
    EvClose Echo512 (hash 4) (digest5 input) ].

(** The five primitives composed, each applied to the whole digest of
    the one before. *)
Definition chain1 (input : list byte) : list byte :=
  sph_digest blake512 input.
Definition chain2 (input : list byte) : list byte :=
  sph_digest groestl512 (chain1 input).
Definition chain3 (input : list byte) : list byte :=
  sph_digest cubehash512 (chain2 input).
Definition chain4 (input : list byte) : list byte :=
  sph_digest shavite512 (chain3 input).
Definition chain5 (input : list byte) : list byte :=
  sph_digest echo512 (chain4 input).

(** The three calls of one stage. *)
Definition stage_calls (a : algo) (data : ptr) (len : Z)
    (msg : list byte) (dst : ptr) (digest : list byte) : list event :=
  [EvInit a; EvUpdate a data len msg; EvClose a dst digest].

(** The calls of a run in which every stage reads back exactly what the
    stage before it wrote. *)
Definition chain_log (data : ptr) (input : list byte) : list event :=
  stage_calls Blake512 data (Z.of_nat (length input)) input
    (hash 0) (chain1 input)
  ++ stage_calls Groestl512 (hash 0) 64 (chain1 input)
       (hash 1) (chain2 input)
  ++ stage_calls CubeHash512 (hash 1) 64 (chain2 input)
       (hash 2) (chain3 input)
  ++ stage_calls SHAvite512 (hash 2) 64 (chain3 input)
       (hash 3) (chain4 input)
  ++ stage_calls Echo512 (hash 3) 64 (chain4 input)
       (hash 4) (chain5 input).

(** The digest [HashX11] leaves at [pResult]. *)
Definition X11 (input : list byte) : list byte :=
  take HASH256_SIZE (chain5 input).

Definition all_write_512 : Prop :=
  writes_512 blake512 ∧ writes_512 groestl512 ∧ writes_512 cubehash512
  ∧ writes_512 shavite512 ∧ writes_512 echo512.

Definition all_fit_row : Prop :=
  fits_row blake512 ∧ fits_row groestl512 ∧ fits_row cubehash512
  ∧ fits_row shavite512 ∧ fits_row echo512.

(** The frame of a run over the memory [m0] it started from: [hash] is
    whole, its rows from [k] on are untouched, nothing else changed. *)
Definition frame_ok (m0 m : mem) (k : nat) : Prop :=
  length (m Local_hash) = 5 * HASH512_SIZE
  ∧ drop (k * HASH512_SIZE) (m Local_hash)
    = drop (k * HASH512_SIZE) (fresh_hash indeterminate)
  ∧ ∀ b, b ≠ Local_hash → m b = m0 b.

End Chain.

(** ** Properties of the calls in a log *)

(** The number of bytes a close writes. *)
Definition close_size (e : event) : option nat :=
  match e with
  | EvClose _ _ d => Some (length d)
  | _ => None
  end.

(** For an update of a stage after the first: the length it is told and
    the number of bytes it reads. *)
Definition rehash_size (e : event) : option (Z * nat) :=
  match e with
  | EvUpdate a _ len bs =>
      if decide (a = Blake512) then None else Some (len, length bs)
  | _ => None
  end.

(** No close writes into [pblank], and an update that is handed [pblank]
    is told to read nothing. *)
Definition event_spares_pblank (e : event) : Prop :=
  match e with
  | EvInit _ => True
  | EvUpdate _ data len bs => data.1 = Static_pblank → len = 0%Z ∧ bs = []
  | EvClose _ dst _ => dst.1 ≠ Static_pblank
  end.

(** A close that stays inside [hash]. *)
Definition event_in_hash (e : event) : Prop :=
  match e with
  | EvClose _ dst d =>
      dst.1 = Local_hash ∧ dst.2 + length d ≤ 5 * HASH512_SIZE
  | _ => True
  end.

(** ** Exchanging the primitive of one stage *)

(** An assignment of a primitive to each stage. *)
Definition primitives : Type := algo → sph_hash.

Definition HashX11_with (P : primitives) (indeterminate : nat → byte)
    (pbegin pend pResult : ptr) : M bool :=
  HashX11 (P Blake512) (P Groestl512) (P CubeHash512) (P SHAvite512)
    (P Echo512) indeterminate pbegin pend pResult.

Definition replace_stage (a : algo) (h' : sph_hash) (P : primitives)
    : primitives :=
  λ a', if decide (a' = a) then h' else P a'.

(** What the stages after [a] and the truncation make of the digest [d]
    of stage [a]. *)
Definition downstream (P : primitives) (a : algo) (d : list byte)
    : list byte :=
  match a with
  | Blake512 =>
      take HASH256_SIZE
        (sph_digest (P Echo512) (sph_digest (P SHAvite512)
           (sph_digest (P CubeHash512) (sph_digest (P Groestl512) d))))
  | Groestl512 =>
      take HASH256_SIZE
        (sph_digest (P Echo512) (sph_digest (P SHAvite512)
           (sph_digest (P CubeHash512) d)))
  | CubeHash512 =>
      take HASH256_SIZE
        (sph_digest (P Echo512) (sph_digest (P SHAvite512) d))
  | SHAvite512 => take HASH256_SIZE (sph_digest (P Echo512) d)
  | Echo512 => take HASH256_SIZE d
  end.

(** What reaches stage [a] as its message. *)
Definition upstream (P : primitives) (a : algo) (input : list byte)
    : list byte :=
  match a with
  | Blake512 => input
  | Groestl512 => sph_digest (P Blake512) input
  | CubeHash512 =>
      sph_digest (P Groestl512) (sph_digest (P Blake512) input)
  | SHAvite512 =>
      sph_digest (P CubeHash512)
        (sph_digest (P Groestl512) (sph_digest (P Blake512) input))
  | Echo512 =>
      sph_digest (P SHAvite512) (sph_digest (P CubeHash512)
        (sph_digest (P Groestl512) (sph_digest (P Blake512) input)))
  end.

(** A primitive that ignores its message and closes with [d]. *)
Definition constant (d : list byte) : sph_hash :=
  mkSph unit tt (λ _ _, tt) (λ _, d).

(** ** Test doubles *)

(** A primitive that keeps everything it is given and closes with a
    64-byte string: its [tag], then the message, then [tag] again up to
    64 bytes. *)
Definition tagged (tag : byte) : sph_hash :=
  mkSph (list byte) [] (λ cc bs, cc ++ bs)
        (λ cc, take 64 (tag :: cc ++ replicate 64 tag)).

(** As [tagged], with the last byte of the digest replaced by [x99]. *)
Definition tagged_alt (tag : byte) : sph_hash :=
  mkSph (list byte) [] (λ cc bs, cc ++ bs)
        (λ cc, take 63 (tag :: cc ++ replicate 64 tag) ++ [x99]).

Definition demo_primitives : primitives :=
  λ a, match a with
       | Blake512 => tagged x01
       | Groestl512 => tagged x02
       | CubeHash512 => tagged x03
       | SHAvite512 => tagged x04
       | Echo512 => tagged x05
       end.

Definition demo_mem (input : list byte) : mem :=
  λ b, match b with
       | Static_pblank => [x00]
       | Local_hash => []
       | Caller 0 => input
       | Caller 1 => replicate 40 xff
       | Caller _ => []
       end.

Definition demo_state (input : list byte) : state :=
  mkState (demo_mem input) [].

Definition demo_run (input : list byte) : option (bool * state) :=
  HashX11 (tagged x01) (tagged x02) (tagged x03) (tagged x04) (tagged x05)
    (λ _, xaa) (Caller 0, 0) (Caller 0, length input) (Caller 1, 4)
    (demo_state input).

(** The same run with a first primitive that closes with a single byte. *)
Definition short_run (input : list byte) : option (bool * state) :=
  HashX11 (constant [x07]) (tagged x02) (tagged x03) (tagged x04)
    (tagged x05)
    (λ _, xaa) (Caller 0, 0) (Caller 0, length input) (Caller 1, 4)
    (demo_state input).


(** ** Bytes in a block *)

Lemma length_splice o (bs l : list byte) :
  o + length bs ≤ length l → length (splice o bs l) = length l.
Proof.
  intros H. unfold splice.
  rewrite !length_app, length_take, length_drop. lia.
Qed.

Lemma drop_splice_above k o (bs l : list byte) :
  o + length bs ≤ k → o + length bs ≤ length l →
  drop k (splice o bs l) = drop k l.
Proof.
  intros Hk Hl. unfold splice.
  rewrite drop_app_ge by (rewrite length_take; lia).
  rewrite length_take, Nat.min_l by lia.
  rewrite drop_app_ge by lia.
  rewrite drop_drop. f_equal. lia.
Qed.

Lemma take_splice_below k o (bs l : list byte) :
  k ≤ o → o ≤ length l → take k (splice o bs l) = take k l.
Proof.
  intros Hk Hl. unfold splice.
  rewrite take_app_le by (rewrite length_take; lia).
  rewrite take_take. f_equal. lia.
Qed.

Lemma read_splice n o (bs l : list byte) :
  length bs ≤ n → o + n ≤ length l →
  take n (drop o (splice o bs l))
  = bs ++ take (n - length bs) (drop (o + length bs) l).
Proof.
  intros Hn Hl. unfold splice.
  rewrite drop_app_length' by (rewrite length_take; lia).
  rewrite take_app_ge by lia. done.
Qed.

Lemma splice_cons o x (bs l : list byte) :
  o + S (length bs) ≤ length l →
  splice (o + 1) bs (splice o [x] l) = splice o (x :: bs) l.
Proof.
  intros Hl.
  assert (Hs : length (splice o [x] l) = length l)
    by (apply length_splice; simpl; lia).
  unfold splice at 1.
  rewrite drop_splice_above by (simpl; lia).
  replace (take (o + 1) (splice o [x] l)) with (take o l ++ [x]).
  - unfold splice. simpl. rewrite <- app_assoc. simpl.
    replace (o + 1 + length bs) with (o + S (length bs)) by lia. done.
  - unfold splice. simpl.
    rewrite take_app_ge by (rewrite length_take; lia).
    rewrite length_take, Nat.min_l by lia.
    replace (o + 1 - o) with 1 by lia. done.
Qed.

Lemma take_drop_step n k x (l : list byte) :
  l !! k = Some x →
  take (S n) (drop k l) = x :: take n (drop (k + 1) l).
Proof.
  intros Hx.
  replace (k + 1) with (S k) by lia.
  by rewrite (drop_S l x k Hx).
Qed.

Lemma mem_set_same (m : mem) b l : mem_set m b l b = l.
Proof. unfold mem_set. by rewrite decide_True. Qed.

Lemma mem_set_other (m : mem) b b' l : b' ≠ b → mem_set m b l b' = m b'.
Proof. intros H. unfold mem_set. by rewrite decide_False. Qed.

Lemma load_in_range (m : mem) (p : ptr) n :
  p.2 + n ≤ length (m p.1) → load m p n = Some (take n (drop p.2 (m p.1))).
Proof. intros H. unfold load. by rewrite decide_True. Qed.

Lemma store_in_range (m : mem) (p : ptr) bs :
  p.2 + length bs ≤ length (m p.1) →
  store m p bs = Some (mem_set m p.1 (splice p.2 bs (m p.1))).
Proof. intros H. unfold store. by rewrite decide_True. Qed.

(** ** Running the monad *)

Lemma bind_run {A B} (c : M A) (k : A → M B) s a s1 :
  c s = Some (a, s1) → mbind' c k s = k a s1.
Proof. intros H. unfold mbind'. by rewrite H. Qed.

Lemma sph_init_call_run a h s :
  sph_init_call a h s
  = Some (sph_init h, mkState (st_mem s) (st_log s ++ [EvInit a])).
Proof. reflexivity. Qed.

Lemma sph_call_run a h cc data len bs s :
  load (st_mem s) data (Z.to_nat len) = Some bs →
  sph_call a h cc data len s
  = Some (sph_update h cc bs,
          mkState (st_mem s) (st_log s ++ [EvUpdate a data len bs])).
Proof. intros H. unfold sph_call. by rewrite H. Qed.

Lemma sph_close_call_run a h cc dst s :
  dst.2 + length (sph_close h cc) ≤ length (st_mem s dst.1) →
  sph_close_call a h cc dst s
  = Some (tt,
          mkState (mem_set (st_mem s) dst.1
                     (splice dst.2 (sph_close h cc) (st_mem s dst.1)))
                  (st_log s ++ [EvClose a dst (sph_close h cc)])).
Proof.
  intros H. unfold sph_close_call. by rewrite store_in_range.
Qed.

(** [trim256_loop] copies [n] bytes from [pn + i] to [ret + i] when the
    two ranges lie in different objects and inside them. *)
Lemma trim256_loop_run pn ret n :
  ∀ i s,
    ret.1 ≠ pn.1 →
    pn.2 + i + n ≤ length (st_mem s pn.1) →
    ret.2 + i + n ≤ length (st_mem s ret.1) →
    ∃ s',
      trim256_loop pn ret i n s = Some (tt, s')
      ∧ st_log s' = st_log s
      ∧ st_mem s' ret.1
        = splice (ret.2 + i) (take n (drop (pn.2 + i) (st_mem s pn.1)))
            (st_mem s ret.1)
      ∧ ∀ b, b ≠ ret.1 → st_mem s' b = st_mem s b.
Proof.
  induction n as [|n IH]; intros i s Hne Hpn Hret.
  - exists s. simpl. repeat split.
    unfold splice. simpl. rewrite Nat.add_0_r. by rewrite take_drop.
  - destruct (lookup_lt_is_Some_2 (st_mem s pn.1) (pn.2 + i)) as [x Hx];
      [lia|].
    set (s1 := mkState (mem_set (st_mem s) ret.1
                          (splice (ret.2 + i) [x] (st_mem s ret.1)))
                       (st_log s)).
    assert (Hload : load_byte (ptr_add pn i) s = Some (x, s)).
    { unfold load_byte, ptr_add. simpl. by rewrite Hx. }
    assert (Hstore : store_byte (ptr_add ret i) x s = Some (tt, s1)).
    { unfold store_byte. rewrite store_in_range; [done|].
      unfold ptr_add. simpl. lia. }
    assert (Hlen : length (st_mem s1 ret.1) = length (st_mem s ret.1)).
    { unfold s1. simpl. rewrite mem_set_same.
      apply length_splice. simpl. lia. }
    assert (Hsrc : st_mem s1 pn.1 = st_mem s pn.1).
    { unfold s1. simpl. apply mem_set_other. congruence. }
    destruct (IH (S i) s1) as (s' & Hrun & Hlog & Hmem & Hframe);
      [done | rewrite Hsrc; lia | rewrite Hlen; lia |].
    exists s'. split; [|split; [|split]].
    + simpl. rewrite (bind_run _ _ _ _ _ Hload).
      by rewrite (bind_run _ _ _ _ _ Hstore).
    + by rewrite Hlog.
    + rewrite Hmem, Hsrc. unfold s1 at 1. simpl. rewrite mem_set_same.
      rewrite (take_drop_step n (pn.2 + i) x) by done.
      replace (ret.2 + S i) with (ret.2 + i + 1) by lia.
      replace (pn.2 + S i) with (pn.2 + i + 1) by lia.
      apply splice_cons.
      rewrite length_take, length_drop. lia.
    + intros b Hb. rewrite Hframe by done.
      unfold s1. simpl. by apply mem_set_other.
Qed.

Lemma ptr_diff_run (p q : ptr) s :
  p.1 = q.1 →
  ptr_diff p q s = Some ((Z.of_nat p.2 - Z.of_nat q.2)%Z, s).
Proof. intros H. unfold ptr_diff. by rewrite decide_True. Qed.

Lemma caller_owned_not_hash p : caller_owned p → p.1 ≠ Local_hash.
Proof. unfold caller_owned. by destruct p.1. Qed.

Lemma caller_owned_not_pblank p : caller_owned p → p.1 ≠ Static_pblank.
Proof. unfold caller_owned. by destruct p.1. Qed.

(** ** One run of [HashX11], call by call *)

Section Run.

Variables blake512 groestl512 cubehash512 shavite512 echo512 : sph_hash.
Variable indeterminate : nat → byte.

Lemma length_fresh_hash : length (fresh_hash indeterminate) = 5 * HASH512_SIZE.
Proof. unfold fresh_hash. by rewrite length_map, length_seq. Qed.

Lemma declare_hash_frame s :
  frame_ok indeterminate (st_mem s) (mem_set (st_mem s) Local_hash (fresh_hash indeterminate)) 0.
Proof.
  split; [|split].
  - rewrite mem_set_same. apply length_fresh_hash.
  - by rewrite mem_set_same.
  - intros b Hb. by apply mem_set_other.
Qed.

(** The length argument of the first [sph_blake512] call is the length
    of the range. *)
Lemma first_len (m : mem) (pbegin pend pResult : ptr) :
  valid_call m pbegin pend pResult →
  to_size_t ((Z.of_nat pend.2 - Z.of_nat pbegin.2) * 1)
  = Z.of_nat (length (input_of m pbegin pend)).
Proof.
  intros (_ & _ & Hle & Hin & Hsz & _).
  unfold input_of. rewrite length_take, length_drop.
  unfold to_size_t. rewrite Z.mul_1_r.
  rewrite Z.mod_small by lia. lia.
Qed.

(** Its data argument points at the bytes of the range, also when the
    range is empty and the pointer is [pblank]. *)
Lemma first_load (m0 m : mem) (pbegin pend pResult : ptr) k :
  valid_call m0 pbegin pend pResult →
  frame_ok indeterminate m0 m k →
  load m (if decide (pbegin = pend) then pblank else pbegin)
    (Z.to_nat (Z.of_nat (length (input_of m0 pbegin pend))))
  = Some (input_of m0 pbegin pend).
Proof.
  intros (Hown & Hblk & Hle & Hin & Hsz & _) (_ & _ & Hframe).
  rewrite Nat2Z.id. unfold input_of.
  case_decide as Heq.
  - subst pend. rewrite Nat.sub_diag. simpl.
    unfold load. simpl. done.
  - rewrite length_take, length_drop.
    rewrite Nat.min_l by lia.
    rewrite load_in_range.
    + by rewrite Hframe by by apply caller_owned_not_hash.
    + rewrite Hframe by by apply caller_owned_not_hash. lia.
Qed.

(** Closing a primitive into row [i] of [hash]. *)
Lemma close_stage a h cc i s m0 :
  i < 5 → fits_row h → frame_ok indeterminate m0 (st_mem s) i →
  ∃ s',
    sph_close_call a h cc (hash i) s = Some (tt, s')
    ∧ st_log s' = st_log s ++ [EvClose a (hash i) (sph_close h cc)]
    ∧ frame_ok indeterminate m0 (st_mem s') (S i)
    ∧ load (st_mem s') (hash i) (Z.to_nat 64)
      = Some (row_after indeterminate i (sph_close h cc)).
Proof.
  intros Hi Hfit (Hlen & Hrest & Hframe).
  pose proof (Hfit cc) as Hd.
  unfold HASH512_SIZE in *.
  assert (Hin : i * 64 + length (sph_close h cc)
                ≤ length (st_mem s Local_hash)) by lia.
  eexists. split; [|split; [|split]].
  - apply sph_close_call_run. exact Hin.
  - done.
  - simpl. split; [|split].
    + rewrite mem_set_same. rewrite length_splice by done. done.
    + rewrite mem_set_same. unfold HASH512_SIZE.
      rewrite drop_splice_above by lia.
      replace (S i * 64) with (i * 64 + 64) by lia.
      rewrite <- !drop_drop. by rewrite Hrest.
    + intros b Hb. rewrite mem_set_other by done. by apply Hframe.
  - simpl. unfold load. simpl. rewrite mem_set_same.
    rewrite length_splice by done.
    change (Z.to_nat 64) with 64.
    rewrite decide_True by (unfold HASH512_SIZE; lia).
    f_equal. unfold HASH512_SIZE.
    rewrite read_splice by lia.
    unfold row_after, HASH512_SIZE. f_equal.
    rewrite <- !drop_drop. by rewrite Hrest.
Qed.

Ltac run_step H := erewrite bind_run; [| H]; cbn [st_mem st_log].

(** The whole run, for primitives that close with at most 64 bytes. *)
Lemma HashX11_run s pbegin pend pResult :
  all_fit_row blake512 groestl512 cubehash512 shavite512 echo512 →
  valid_call (st_mem s) pbegin pend pResult →
  ∃ s',
    HashX11 blake512 groestl512 cubehash512 shavite512 echo512
      indeterminate pbegin pend pResult s = Some (true, s')
    ∧ st_log s'
      = st_log s
        ++ run_log blake512 groestl512 cubehash512 shavite512 echo512
             indeterminate
             (if decide (pbegin = pend) then pblank else pbegin)
             (input_of (st_mem s) pbegin pend)
    ∧ st_mem s' pResult.1
      = splice pResult.2
          (take HASH256_SIZE
             (row5 blake512 groestl512 cubehash512 shavite512 echo512
                indeterminate (input_of (st_mem s) pbegin pend)))
          (st_mem s pResult.1)
    ∧ ∀ b, b ≠ pResult.1 → b ≠ Local_hash → st_mem s' b = st_mem s b.
Proof.
  intros (Hb & Hg & Hc & Hs & He) Hcall.
  set (input := input_of (st_mem s) pbegin pend).
  set (data := if decide (pbegin = pend) then pblank else pbegin).
  pose proof (declare_hash_frame s) as F0.
  set (s0 := mkState (mem_set (st_mem s) Local_hash
                        (fresh_hash indeterminate)) (st_log s)) in *.
  change (mem_set (st_mem s) Local_hash (fresh_hash indeterminate))
    with (st_mem s0) in F0.
  assert (Hlog0 : st_log s0 = st_log s) by done.
  assert (Hfst : valid_call (st_mem s) pbegin pend pResult) by done.
  destruct Hcall as (Hown & Hblk & Hle & Hin & Hsz & HownR & HinR).
  unfold HashX11.
  assert (R0 : declare_hash indeterminate s = Some (tt, s0)) by done.
  run_step ltac:(exact R0).
  (* BLAKE-512 *)
  run_step ltac:(apply sph_init_call_run).
  run_step ltac:(apply ptr_diff_run; done).
  rewrite (first_len _ _ _ _ Hfst). fold input.
  run_step ltac:(apply sph_call_run; cbn [st_mem];
                 apply (first_load _ _ _ _ _ _ Hfst F0)).
  fold data input.
  match goal with |- context [mbind' (sph_close_call Blake512 _ ?cc _) _ ?st] =>
    destruct (close_stage Blake512 blake512 cc 0 st (st_mem s))
      as (s1 & R1 & L1 & F1 & D1); [lia | done | done |]
  end.
  run_step ltac:(exact R1).
  (* Groestl-512 *)
  run_step ltac:(apply sph_init_call_run).
  run_step ltac:(apply sph_call_run; exact D1).
  match goal with |- context [mbind' (sph_close_call Groestl512 _ ?cc _) _ ?st] =>
    destruct (close_stage Groestl512 groestl512 cc 1 st (st_mem s))
      as (s2 & R2 & L2 & F2 & D2); [lia | done | done |]
  end.
  run_step ltac:(exact R2).
  (* CubeHash-512 *)
  run_step ltac:(apply sph_init_call_run).
  run_step ltac:(apply sph_call_run; exact D2).
  match goal with |- context [mbind' (sph_close_call CubeHash512 _ ?cc _) _ ?st] =>
    destruct (close_stage CubeHash512 cubehash512 cc 2 st (st_mem s))
      as (s3 & R3 & L3 & F3 & D3); [lia | done | done |]
  end.
  run_step ltac:(exact R3).
  (* SHAvite-512 *)
  run_step ltac:(apply sph_init_call_run).
  run_step ltac:(apply sph_call_run; exact D3).
  match goal with |- context [mbind' (sph_close_call SHAvite512 _ ?cc _) _ ?st] =>
    destruct (close_stage SHAvite512 shavite512 cc 3 st (st_mem s))
      as (s4 & R4 & L4 & F4 & D4); [lia | done | done |]
  end.
  run_step ltac:(exact R4).
  (* Echo-512 *)
  run_step ltac:(apply sph_init_call_run).
  run_step ltac:(apply sph_call_run; exact D4).
  match goal with |- context [mbind' (sph_close_call Echo512 _ ?cc _) _ ?st] =>
    destruct (close_stage Echo512 echo512 cc 4 st (st_mem s))
      as (s5 & R5 & L5 & F5 & D5); [lia | done | done |]
  end.
  run_step ltac:(exact R5).
  (* trim256 *)
  destruct F5 as (Hlen5 & _ & Hframe5).
  pose proof (caller_owned_not_hash _ HownR) as HneR.
  destruct (trim256_loop_run (hash 4) pResult HASH256_SIZE 0 s5)
    as (s6 & R6 & L6 & M6 & F6).
  { done. }
  { simpl. rewrite Hlen5. unfold HASH512_SIZE, HASH256_SIZE. lia. }
  { rewrite (Hframe5 _ HneR). lia. }
  unfold trim256. run_step ltac:(exact R6).
  exists s6. split; [reflexivity | split; [| split]].
  - rewrite L6, L5, L4, L3, L2, L1. cbn [st_log].
    rewrite Hlog0. unfold run_log. rewrite <- !app_assoc. done.
  - rewrite M6. rewrite (Hframe5 _ HneR). rewrite !Nat.add_0_r.
    f_equal.
    unfold load in D5. simpl in D5. case_decide; [|done].
    injection D5 as D5. unfold row5, digest5, sph_digest.
    unfold row4, digest4, row3, digest3, row2, digest2, row1, digest1,
      sph_digest.
    rewrite <- D5. simpl. rewrite take_take. done.
  - intros b HbR HbH. rewrite F6 by done. by apply Hframe5.
Qed.

End Run.

(** ** Primitives that keep their contract *)

Lemma all_write_fit b g c sh e :
  all_write_512 b g c sh e → all_fit_row b g c sh e.
Proof.
  intros (Hb & Hg & Hc & Hs & He).
  repeat split; intros cc;
    [rewrite Hb | rewrite Hg | rewrite Hc | rewrite Hs | rewrite He]; done.
Qed.

Lemma row_after_full indeterminate i d :
  length d = HASH512_SIZE → row_after indeterminate i d = d.
Proof.
  intros H. unfold row_after. rewrite H, Nat.sub_diag. simpl.
  by rewrite app_nil_r.
Qed.

Lemma result_of_splice (m : mem) (p : ptr) out l :
  m p.1 = splice p.2 out l →
  length out = HASH256_SIZE →
  p.2 + HASH256_SIZE ≤ length l →
  result_of m p = out.
Proof.
  intros Hm Hout Hl. unfold result_of. rewrite Hm.
  rewrite read_splice by lia.
  rewrite Hout, Nat.sub_diag. simpl. by rewrite app_nil_r.
Qed.

Lemma valid_call_ext (m m' : mem) pbegin pend pResult :
  (∀ b, b ≠ Static_pblank → m' b = m b) →
  valid_call m pbegin pend pResult → valid_call m' pbegin pend pResult.
Proof.
  intros Hm (Hown & Hblk & Hle & Hin & Hsz & HownR & HinR).
  pose proof (caller_owned_not_pblank _ Hown).
  pose proof (caller_owned_not_pblank _ HownR).
  unfold valid_call. rewrite !Hm by done. done.
Qed.

Section Contract.

Variables blake512 groestl512 cubehash512 shavite512 echo512 : sph_hash.
Variable indeterminate : nat → byte.

Hypothesis contract :
  all_write_512 blake512 groestl512 cubehash512 shavite512 echo512.

Lemma length_chain input :
  length (chain1 blake512 input) = HASH512_SIZE
  ∧ length (chain2 blake512 groestl512 input) = HASH512_SIZE
  ∧ length (chain3 blake512 groestl512 cubehash512 input) = HASH512_SIZE
  ∧ length (chain4 blake512 groestl512 cubehash512 shavite512 input)
    = HASH512_SIZE
  ∧ length (chain5 blake512 groestl512 cubehash512 shavite512 echo512
              input) = HASH512_SIZE.
Proof.
  destruct contract as (Hb & Hg & Hc & Hs & He).
  repeat split;
    [apply Hb | apply Hg | apply Hc | apply Hs | apply He].
Qed.

Lemma length_X11 input :
  length (X11 blake512 groestl512 cubehash512 shavite512 echo512 input)
  = HASH256_SIZE.
Proof.
  unfold X11. rewrite length_take.
  destruct (length_chain input) as (_ & _ & _ & _ & H5).
  rewrite H5. done.
Qed.

Lemma rows_are_digests data input :
  run_log blake512 groestl512 cubehash512 shavite512 echo512
    indeterminate data input
  = chain_log blake512 groestl512 cubehash512 shavite512 echo512
      data input
  ∧ row5 blake512 groestl512 cubehash512 shavite512 echo512
      indeterminate input
    = chain5 blake512 groestl512 cubehash512 shavite512 echo512 input.
Proof.
  destruct (length_chain input) as (H1 & H2 & H3 & H4 & H5).
  assert (R1 : row1 blake512 indeterminate input = chain1 blake512 input)
    by (apply row_after_full, H1).
  assert (R2 : row2 blake512 groestl512 indeterminate input
               = chain2 blake512 groestl512 input).
  { unfold row2, digest2. rewrite R1. apply row_after_full, H2. }
  assert (R3 : row3 blake512 groestl512 cubehash512 indeterminate input
               = chain3 blake512 groestl512 cubehash512 input).
  { unfold row3, digest3. rewrite R2. apply row_after_full, H3. }
  assert (R4 : row4 blake512 groestl512 cubehash512 shavite512
                 indeterminate input
               = chain4 blake512 groestl512 cubehash512 shavite512 input).
  { unfold row4, digest4. rewrite R3. apply row_after_full, H4. }
  assert (R5 : row5 blake512 groestl512 cubehash512 shavite512 echo512
                 indeterminate input
               = chain5 blake512 groestl512 cubehash512 shavite512
                   echo512 input).
  { unfold row5, digest5. rewrite R4. apply row_after_full, H5. }
  split; [|exact R5].
  unfold run_log, chain_log, stage_calls.
  unfold digest5, digest4, digest3, digest2.
  rewrite R4, R3, R2, R1. reflexivity.
Qed.

(** The whole run, for primitives that close with exactly 64 bytes. *)
Lemma HashX11_run_512 s pbegin pend pResult :
  valid_call (st_mem s) pbegin pend pResult →
  ∃ s',
    HashX11 blake512 groestl512 cubehash512 shavite512 echo512
      indeterminate pbegin pend pResult s = Some (true, s')
    ∧ st_log s'
      = st_log s
        ++ chain_log blake512 groestl512 cubehash512 shavite512 echo512
             (if decide (pbegin = pend) then pblank else pbegin)
             (input_of (st_mem s) pbegin pend)
    ∧ st_mem s' pResult.1
      = splice pResult.2
          (X11 blake512 groestl512 cubehash512 shavite512 echo512
             (input_of (st_mem s) pbegin pend))
          (st_mem s pResult.1)
    ∧ result_of (st_mem s') pResult
      = X11 blake512 groestl512 cubehash512 shavite512 echo512
          (input_of (st_mem s) pbegin pend)
    ∧ ∀ b, b ≠ pResult.1 → b ≠ Local_hash → st_mem s' b = st_mem s b.
Proof.
  intros Hcall.
  destruct (HashX11_run blake512 groestl512 cubehash512 shavite512
              echo512 indeterminate s pbegin pend pResult
              (all_write_fit _ _ _ _ _ contract) Hcall)
    as (s' & Hrun & Hlog & Hmem & Hframe).
  destruct (rows_are_digests
              (if decide (pbegin = pend) then pblank else pbegin)
              (input_of (st_mem s) pbegin pend)) as (Elog & Erow).
  rewrite Elog in Hlog. rewrite Erow in Hmem.
  exists s'. repeat split; try done.
  eapply result_of_splice; [exact Hmem | apply length_X11 |].
  by destruct Hcall as (_ & _ & _ & _ & _ & _ & ?).
Qed.

End Contract.

(** ** The test doubles keep the contract *)

Lemma tagged_writes_512 tag : writes_512 (tagged tag).
Proof.
  intros cc. unfold tagged, HASH512_SIZE. cbn [sph_close].
  rewrite length_take. cbn [length].
  rewrite length_app, length_replicate. lia.
Qed.

Lemma tagged_alt_writes_512 tag : writes_512 (tagged_alt tag).
Proof.
  intros cc. unfold tagged_alt, HASH512_SIZE. cbn [sph_close].
  rewrite length_app, length_take. cbn [length].
  rewrite length_app, length_replicate. lia.
Qed.

Lemma constant_writes_512 d :
  length d = HASH512_SIZE → writes_512 (constant d).
Proof. intros H cc. exact H. Qed.

Lemma demo_contract :
  all_write_512 (tagged x01) (tagged x02) (tagged x03) (tagged x04)
    (tagged x05).
Proof. repeat split; apply tagged_writes_512. Qed.

Lemma demo_primitives_contract a : writes_512 (demo_primitives a).
Proof. destruct a; apply tagged_writes_512. Qed.

Lemma demo_valid :
  valid_call (demo_mem [x10; x11]) (Caller 0, 0) (Caller 0, 2) (Caller 1, 4).
Proof.
  unfold valid_call, caller_owned, HASH256_SIZE, SIZE_WIDTH. simpl.
  repeat split; lia.
Qed.

Lemma demo_valid_empty :
  valid_call (demo_mem []) (Caller 0, 0) (Caller 0, 0) (Caller 1, 4).
Proof.
  unfold valid_call, caller_owned, HASH256_SIZE, SIZE_WIDTH. simpl.
  repeat split; lia.
Qed.

(** ** What [HashX11] does *)

Section Claims.

Variables blake512 groestl512 cubehash512 shavite512 echo512 : sph_hash.
Variable indeterminate : nat → byte.

(** C1.  A call runs the three sphlib calls of BLAKE-512, Groestl-512,
    CubeHash-512, SHAvite-512 and Echo-512, in this order and nothing
    else.  The first stage is given the bytes of the caller's range;
    each later stage is given row [i] of [hash] with length 64 and the
    bytes it reads are the whole digest, 64 bytes long, that the stage
    before it closed into that row. *)
Theorem C1_five_stages_in_order s pbegin pend pResult :
  all_write_512 blake512 groestl512 cubehash512 shavite512 echo512 →
  valid_call (st_mem s) pbegin pend pResult →
  let input := input_of (st_mem s) pbegin pend in
  let digest1 := sph_digest blake512 input in
  let digest2 := sph_digest groestl512 digest1 in
  let digest3 := sph_digest cubehash512 digest2 in
  let digest4 := sph_digest shavite512 digest3 in
  let digest5 := sph_digest echo512 digest4 in
  ∃ s',
    HashX11 blake512 groestl512 cubehash512 shavite512 echo512
      indeterminate pbegin pend pResult s = Some (true, s')
    ∧ st_log s'
      = st_log s
        ++ [ EvInit Blake512;
             EvUpdate Blake512
               (if decide (pbegin = pend) then pblank else pbegin)
               (Z.of_nat (length input)) input;
             EvClose Blake512 (hash 0) digest1;
             EvInit Groestl512;
             EvUpdate Groestl512 (hash 0) 64 digest1;
             EvClose Groestl512 (hash 1) digest2;
             EvInit CubeHash512;
             EvUpdate CubeHash512 (hash 1) 64 digest2;
             EvClose CubeHash512 (hash 2) digest3;
             EvInit SHAvite512;
             EvUpdate SHAvite512 (hash 2) 64 digest3;
             EvClose SHAvite512 (hash 3) digest4;
             EvInit Echo512;
             EvUpdate Echo512 (hash 3) 64 digest4;
             EvClose Echo512 (hash 4) digest5 ]
    ∧ length digest1 = 64 ∧ length digest2 = 64
    ∧ length digest3 = 64 ∧ length digest4 = 64.
Proof.
  intros Hc Hcall input d1 d2 d3 d4 d5.
  destruct (HashX11_run_512 _ _ _ _ _ indeterminate Hc s pbegin pend
              pResult Hcall) as (s' & Hrun & Hlog & _).
  destruct (length_chain _ _ _ _ _ Hc input) as (H1 & H2 & H3 & H4 & _).
  exists s'. split; [exact Hrun|]. split; [exact Hlog|].
  repeat split; assumption.
Qed.

(** C3.  When [pbegin == pend] the first primitive is handed [pblank],
    not the caller's pointer, and is told length 0; it reads no byte.
    The call returns true and leaves at [pResult] the digest of the
    empty message. *)
Theorem C3_empty_input s p pResult :
  all_write_512 blake512 groestl512 cubehash512 shavite512 echo512 →
  valid_call (st_mem s) p p pResult →
  ∃ s' rest,
    HashX11 blake512 groestl512 cubehash512 shavite512 echo512
      indeterminate p p pResult s = Some (true, s')
    ∧ st_log s'
      = st_log s
        ++ EvInit Blake512 :: EvUpdate Blake512 pblank 0 [] :: rest
    ∧ pblank ≠ p
    ∧ result_of (st_mem s') pResult
      = X11 blake512 groestl512 cubehash512 shavite512 echo512 [].
Proof.
  intros Hc Hcall.
  destruct (HashX11_run_512 _ _ _ _ _ indeterminate Hc s p p
              pResult Hcall) as (s' & Hrun & Hlog & _ & Hres & _).
  assert (Hin : input_of (st_mem s) p p = []).
  { unfold input_of. by rewrite Nat.sub_diag. }
  rewrite Hin in Hlog, Hres. rewrite decide_True in Hlog by done.
  exists s'. eexists. split; [exact Hrun|]. split; [exact Hlog|].
  split; [|exact Hres].
  destruct Hcall as (Hown & _). intros <-. exact Hown.
Qed.

(** C5.  Every call on a range of the caller returns true: the run
    does not stop early and its value is the success value. *)
Theorem C5_always_true s pbegin pend pResult :
  all_write_512 blake512 groestl512 cubehash512 shavite512 echo512 →
  valid_call (st_mem s) pbegin pend pResult →
  ∃ s',
    HashX11 blake512 groestl512 cubehash512 shavite512 echo512
      indeterminate pbegin pend pResult s = Some (true, s').
Proof.
  intros Hc Hcall.
  destruct (HashX11_run_512 _ _ _ _ _ indeterminate Hc s pbegin pend
              pResult Hcall) as (s' & Hrun & _).
  by exists s'.
Qed.

(** C6.  Whatever the length of the input, the five closes of a run
    write 64 bytes each, the four updates after the first stage are
    told 64 and read 64 bytes each, the last close is that of Echo-512
    into [hash[4]] with a digest of 64 bytes, and the call writes at
    [pResult] the first 32 bytes of that digest, 32 bytes exactly, and
    nothing else of the caller's object. *)
Theorem C6_sizes s pbegin pend pResult :
  all_write_512 blake512 groestl512 cubehash512 shavite512 echo512 →
  valid_call (st_mem s) pbegin pend pResult →
  let input := input_of (st_mem s) pbegin pend in
  let digest1 := sph_digest blake512 input in
  let digest2 := sph_digest groestl512 digest1 in
  let digest3 := sph_digest cubehash512 digest2 in
  let digest4 := sph_digest shavite512 digest3 in
  let digest5 := sph_digest echo512 digest4 in
  ∃ s' calls,
    HashX11 blake512 groestl512 cubehash512 shavite512 echo512
      indeterminate pbegin pend pResult s = Some (true, s')
    ∧ st_log s' = st_log s ++ calls
    ∧ omap close_size calls = replicate 5 HASH512_SIZE
    ∧ omap rehash_size calls = replicate 4 (64%Z, HASH512_SIZE)
    ∧ last calls = Some (EvClose Echo512 (hash 4) digest5)
    ∧ length digest5 = HASH512_SIZE
    ∧ st_mem s' pResult.1
      = splice pResult.2 (take HASH256_SIZE digest5) (st_mem s pResult.1)
    ∧ result_of (st_mem s') pResult = take HASH256_SIZE digest5
    ∧ length (result_of (st_mem s') pResult) = HASH256_SIZE.
Proof.
  intros Hc Hcall input d1 d2 d3 d4 d5.
  destruct (HashX11_run_512 _ _ _ _ _ indeterminate Hc s pbegin pend
              pResult Hcall) as (s' & Hrun & Hlog & Hmem & Hres & _).
  destruct (length_chain _ _ _ _ _ Hc (input_of (st_mem s) pbegin pend))
    as (H1 & H2 & H3 & H4 & H5).
  exists s'. eexists.
  split; [exact Hrun|]. split; [exact Hlog|].
  split; [|split; [|split; [reflexivity|split; [exact H5|split;
    [exact Hmem|split; [exact Hres|]]]]]].
  - unfold chain_log, stage_calls. simpl.
    unfold chain5, chain4, chain3, chain2 in *.
    by rewrite H1, H2, H3, H4, H5.
  - unfold chain_log, stage_calls. simpl.
    unfold chain4, chain3, chain2 in *.
    by rewrite H1, H2, H3, H4.
  - rewrite Hres. by apply length_X11.
Qed.

End Claims.

(** C2.  The 32 bytes at [pResult] after the call are the first 32 bytes
    of the digest the Echo-512 stage closed, in the same order, byte [i]
    of the result being byte [i] of that digest; the rest of the caller's
    object is as before.  Exchanging Echo-512 for a primitive whose
    digest of the same message differs only in bytes 32..63 leaves the
    result as it is. *)
Theorem C2_truncation blake512 groestl512 cubehash512 shavite512 echo512
    echo512' indeterminate s pbegin pend pResult :
  all_write_512 blake512 groestl512 cubehash512 shavite512 echo512 →
  writes_512 echo512' →
  valid_call (st_mem s) pbegin pend pResult →
  let message4 :=
    chain4 blake512 groestl512 cubehash512 shavite512
      (input_of (st_mem s) pbegin pend) in
  take 32 (sph_digest echo512' message4)
  = take 32 (sph_digest echo512 message4) →
  ∃ s1 s2,
    HashX11 blake512 groestl512 cubehash512 shavite512 echo512
      indeterminate pbegin pend pResult s = Some (true, s1)
    ∧ HashX11 blake512 groestl512 cubehash512 shavite512 echo512'
        indeterminate pbegin pend pResult s = Some (true, s2)
    ∧ result_of (st_mem s1) pResult = take 32 (sph_digest echo512 message4)
    ∧ (∀ i, i < 32 →
         st_mem s1 pResult.1 !! (pResult.2 + i)
         = sph_digest echo512 message4 !! i)
    ∧ st_mem s1 pResult.1
      = take pResult.2 (st_mem s pResult.1)
        ++ take 32 (sph_digest echo512 message4)
        ++ drop (pResult.2 + 32) (st_mem s pResult.1)
    ∧ result_of (st_mem s2) pResult = result_of (st_mem s1) pResult.
Proof.
  intros Hc He' Hcall message4 Hsame.
  assert (Hc' : all_write_512 blake512 groestl512 cubehash512 shavite512
                  echo512').
  { destruct Hc as (? & ? & ? & ? & ?). by repeat split. }
  destruct (HashX11_run_512 _ _ _ _ _ indeterminate Hc s pbegin pend
              pResult Hcall) as (s1 & Hrun1 & _ & Hmem1 & Hres1 & _).
  destruct (HashX11_run_512 _ _ _ _ _ indeterminate Hc' s pbegin pend
              pResult Hcall) as (s2 & Hrun2 & _ & _ & Hres2 & _).
  pose proof (length_X11 _ _ _ _ _ Hc (input_of (st_mem s) pbegin pend))
    as Hlen.
  unfold X11, chain5 in Hmem1, Hres1, Hres2, Hlen. subst message4.
  unfold HASH256_SIZE in *.
  destruct Hcall as (_ & _ & _ & _ & _ & _ & HinR).
  exists s1, s2. repeat split; try done.
  - intros i Hi. rewrite Hmem1. unfold splice.
    rewrite lookup_app_r by (rewrite length_take; lia).
    rewrite length_take, Nat.min_l by lia.
    replace (pResult.2 + i - pResult.2) with i by lia.
    rewrite lookup_app_l by lia.
    by rewrite lookup_take_lt.
  - rewrite Hmem1. unfold splice. by rewrite Hlen.
  - by rewrite Hres2, Hres1.
Qed.

(** C4.  Two calls with the same primitives on ranges that hold the same
    bytes leave the same 32 bytes at their result pointers, wherever the
    ranges and the results lie, whatever else the two memories hold and
    whatever [hash] held before. *)
Theorem C4_deterministic blake512 groestl512 cubehash512 shavite512 echo512
    indeterminate1 indeterminate2 s1 s2
    pbegin1 pend1 pResult1 pbegin2 pend2 pResult2 :
  all_write_512 blake512 groestl512 cubehash512 shavite512 echo512 →
  valid_call (st_mem s1) pbegin1 pend1 pResult1 →
  valid_call (st_mem s2) pbegin2 pend2 pResult2 →
  input_of (st_mem s1) pbegin1 pend1 = input_of (st_mem s2) pbegin2 pend2 →
  ∃ s1' s2',
    HashX11 blake512 groestl512 cubehash512 shavite512 echo512
      indeterminate1 pbegin1 pend1 pResult1 s1 = Some (true, s1')
    ∧ HashX11 blake512 groestl512 cubehash512 shavite512 echo512
        indeterminate2 pbegin2 pend2 pResult2 s2 = Some (true, s2')
    ∧ result_of (st_mem s1') pResult1 = result_of (st_mem s2') pResult2
    ∧ length (result_of (st_mem s1') pResult1) = 32.
Proof.
  intros Hc Hcall1 Hcall2 Hsame.
  destruct (HashX11_run_512 _ _ _ _ _ indeterminate1 Hc s1 pbegin1 pend1
              pResult1 Hcall1) as (s1' & Hrun1 & _ & _ & Hres1 & _).
  destruct (HashX11_run_512 _ _ _ _ _ indeterminate2 Hc s2 pbegin2 pend2
              pResult2 Hcall2) as (s2' & Hrun2 & _ & _ & Hres2 & _).
  exists s1', s2'. repeat split; try done.
  - by rewrite Hres1, Hres2, Hsame.
  - rewrite Hres1. by apply length_X11.
Qed.

(** C8.  The byte held by [pblank] does not reach the result: in two
    memories that agree everywhere but hold the bytes [x] and [y] in
    [pblank], the same call, on an empty range or not, leaves the same 32
    bytes at [pResult]. *)
Theorem C8_placeholder_irrelevant blake512 groestl512 cubehash512 shavite512
    echo512 indeterminate (m : mem) (log : list event) (x y : byte)
    pbegin pend pResult :
  all_write_512 blake512 groestl512 cubehash512 shavite512 echo512 →
  valid_call m pbegin pend pResult →
  ∃ sx sy,
    HashX11 blake512 groestl512 cubehash512 shavite512 echo512
      indeterminate pbegin pend pResult
      (mkState (mem_set m Static_pblank [x]) log) = Some (true, sx)
    ∧ HashX11 blake512 groestl512 cubehash512 shavite512 echo512
        indeterminate pbegin pend pResult
        (mkState (mem_set m Static_pblank [y]) log) = Some (true, sy)
    ∧ result_of (st_mem sx) pResult = result_of (st_mem sy) pResult
    ∧ st_log sx = st_log sy.
Proof.
  intros Hc Hcall.
  assert (Hx : valid_call (mem_set m Static_pblank [x]) pbegin pend pResult).
  { eapply valid_call_ext; [|exact Hcall].
    intros b Hb. by apply mem_set_other. }
  assert (Hy : valid_call (mem_set m Static_pblank [y]) pbegin pend pResult).
  { eapply valid_call_ext; [|exact Hcall].
    intros b Hb. by apply mem_set_other. }
  assert (Hin : ∀ z, input_of (mem_set m Static_pblank [z]) pbegin pend
                     = input_of m pbegin pend).
  { intros z. unfold input_of. rewrite mem_set_other; [done|].
    apply caller_owned_not_pblank. by destruct Hcall. }
  destruct (HashX11_run_512 _ _ _ _ _ indeterminate Hc
              (mkState (mem_set m Static_pblank [x]) log) pbegin pend
              pResult Hx) as (sx & Hrunx & Hlogx & _ & Hresx & _).
  destruct (HashX11_run_512 _ _ _ _ _ indeterminate Hc
              (mkState (mem_set m Static_pblank [y]) log) pbegin pend
              pResult Hy) as (sy & Hruny & Hlogy & _ & Hresy & _).
  cbn [st_mem st_log] in *. rewrite Hin in *.
  exists sx, sy. repeat split; try done.
  - by rewrite Hresx, Hresy.
  - by rewrite Hlogx, Hlogy.
Qed.

(** C10.  A call never writes [pblank]: no close is pointed at it, and the
    only update that can be handed it is told to read nothing.  After the
    call [pblank] holds what it held before, and so does every byte of
    memory outside [hash] and outside the 32 bytes at [pResult]. *)
Theorem C10_frame blake512 groestl512 cubehash512 shavite512 echo512
    indeterminate s pbegin pend pResult :
  all_fit_row blake512 groestl512 cubehash512 shavite512 echo512 →
  valid_call (st_mem s) pbegin pend pResult →
  ∃ s' calls,
    HashX11 blake512 groestl512 cubehash512 shavite512 echo512
      indeterminate pbegin pend pResult s = Some (true, s')
    ∧ st_log s' = st_log s ++ calls
    ∧ Forall event_spares_pblank calls
    ∧ st_mem s' Static_pblank = st_mem s Static_pblank
    ∧ (∀ b, b ≠ pResult.1 → b ≠ Local_hash → st_mem s' b = st_mem s b)
    ∧ take pResult.2 (st_mem s' pResult.1)
      = take pResult.2 (st_mem s pResult.1)
    ∧ drop (pResult.2 + HASH256_SIZE) (st_mem s' pResult.1)
      = drop (pResult.2 + HASH256_SIZE) (st_mem s pResult.1).
Proof.
  intros Hfit Hcall.
  destruct (HashX11_run _ _ _ _ _ indeterminate s pbegin pend pResult
              Hfit Hcall) as (s' & Hrun & Hlog & Hmem & Hframe).
  pose proof Hcall as (Hown & Hblk & Hle & Hin & Hsz & HownR & HinR).
  assert (Hlen : length (take HASH256_SIZE
                   (row5 blake512 groestl512 cubehash512 shavite512 echo512
                      indeterminate (input_of (st_mem s) pbegin pend)))
                 = HASH256_SIZE).
  { destruct Hfit as (_ & _ & _ & _ & He).
    rewrite length_take. unfold row5, row_after.
    rewrite length_app, length_take, length_drop, length_fresh_hash.
    pose proof (He (sph_update echo512 (sph_init echo512)
                  (row4 blake512 groestl512 cubehash512 shavite512
                     indeterminate (input_of (st_mem s) pbegin pend)))) as Hd.
    unfold digest5, sph_digest, HASH512_SIZE, HASH256_SIZE in *. lia. }
  exists s'. eexists.
  split; [exact Hrun|]. split; [exact Hlog|].
  split; [|split; [|split; [|split]]].
  - assert (Hfirst : event_spares_pblank
              (EvUpdate Blake512
                 (if decide (pbegin = pend) then pblank else pbegin)
                 (Z.of_nat (length (input_of (st_mem s) pbegin pend)))
                 (input_of (st_mem s) pbegin pend))).
    { simpl. case_decide as Heq; intros Hp.
      - subst pend. unfold input_of. by rewrite Nat.sub_diag.
      - by apply caller_owned_not_pblank in Hown. }
    unfold run_log.
    repeat (apply Forall_cons; split; [first [exact Hfirst | done]|]).
    constructor.
  - apply Hframe.
    + intros E. apply (caller_owned_not_pblank _ HownR). by rewrite <- E.
    + done.
  - exact Hframe.
  - rewrite Hmem. apply take_splice_below; lia.
  - rewrite Hmem. apply drop_splice_above; rewrite Hlen; lia.
Qed.

(** C7 (as the code has it).  [HashX11] never looks at the length of a
    digest.  With primitives that close with at most 64 bytes, possibly
    fewer, the call still runs all five stages and returns true; each
    later stage reads the whole 64-byte row, that is the digest followed
    by what the row held behind it, and the result is the first 32 bytes
    of the last row. *)
Theorem C7_no_length_check blake512 groestl512 cubehash512 shavite512 echo512
    indeterminate s pbegin pend pResult :
  all_fit_row blake512 groestl512 cubehash512 shavite512 echo512 →
  valid_call (st_mem s) pbegin pend pResult →
  let input := input_of (st_mem s) pbegin pend in
  let stale i d :=
    take (64 - length d) (drop (i * 64 + length d)
                            (fresh_hash indeterminate)) in
  let digest1 := sph_digest blake512 input in
  let row1 := digest1 ++ stale 0 digest1 in
  let digest2 := sph_digest groestl512 row1 in
  let row2 := digest2 ++ stale 1 digest2 in
  let digest3 := sph_digest cubehash512 row2 in
  let row3 := digest3 ++ stale 2 digest3 in
  let digest4 := sph_digest shavite512 row3 in
  let row4 := digest4 ++ stale 3 digest4 in
  let digest5 := sph_digest echo512 row4 in
  let row5 := digest5 ++ stale 4 digest5 in
  ∃ s',
    HashX11 blake512 groestl512 cubehash512 shavite512 echo512
      indeterminate pbegin pend pResult s = Some (true, s')
    ∧ st_log s'
      = st_log s
        ++ [ EvInit Blake512;
             EvUpdate Blake512
               (if decide (pbegin = pend) then pblank else pbegin)
               (Z.of_nat (length input)) input;
             EvClose Blake512 (hash 0) digest1;
             EvInit Groestl512;
             EvUpdate Groestl512 (hash 0) 64 row1;
             EvClose Groestl512 (hash 1) digest2;
             EvInit CubeHash512;
             EvUpdate CubeHash512 (hash 1) 64 row2;
             EvClose CubeHash512 (hash 2) digest3;
             EvInit SHAvite512;
             EvUpdate SHAvite512 (hash 2) 64 row3;
             EvClose SHAvite512 (hash 3) digest4;
             EvInit Echo512;
             EvUpdate Echo512 (hash 3) 64 row4;
             EvClose Echo512 (hash 4) digest5 ]
    ∧ st_mem s' pResult.1
      = splice pResult.2 (take 32 row5) (st_mem s pResult.1).
Proof.
  intros Hfit Hcall. cbv zeta.
  destruct (HashX11_run _ _ _ _ _ indeterminate s pbegin pend pResult
              Hfit Hcall) as (s' & Hrun & Hlog & Hmem & _).
  exists s'. split; [exact Hrun|]. split; [exact Hlog | exact Hmem].
Qed.

(** ** One stage exchanged *)

Lemma X11_through_stage (P : primitives) a input :
  X11 (P Blake512) (P Groestl512) (P CubeHash512) (P SHAvite512)
    (P Echo512) input
  = downstream P a (sph_digest (P a) (upstream P a input)).
Proof. by destruct a. Qed.

Lemma X11_replace_stage (P : primitives) a h' input :
  let P' := replace_stage a h' P in
  X11 (P' Blake512) (P' Groestl512) (P' CubeHash512) (P' SHAvite512)
    (P' Echo512) input
  = downstream P a (sph_digest h' (upstream P a input)).
Proof. by destruct a. Qed.

Lemma primitives_contract (P : primitives) :
  (∀ a, writes_512 (P a)) →
  all_write_512 (P Blake512) (P Groestl512) (P CubeHash512) (P SHAvite512)
    (P Echo512).
Proof. intros H. repeat split; apply H. Qed.

Lemma replace_stage_contract (P : primitives) a h' :
  (∀ a, writes_512 (P a)) → writes_512 h' →
  ∀ a', writes_512 (replace_stage a h' P a').
Proof. intros HP Hh a'. unfold replace_stage. by case_decide. Qed.

(** C9 (as the code has it).  No stage is bypassed: the result is the
    first 32 bytes of the last digest of the full five-stage chain.  For
    each stage and every primitive put in place of that stage alone, the
    32 bytes left at [pResult] change exactly when what follows the stage
    (the later primitives, then the truncation to 32 bytes) tells apart
    the digest of the original primitive and the digest of the
    replacement on the message that reaches the stage. *)
Theorem C9_stage_dependence (P : primitives) (a : algo) (h' : sph_hash)
    indeterminate s pbegin pend pResult :
  (∀ a', writes_512 (P a')) →
  writes_512 h' →
  valid_call (st_mem s) pbegin pend pResult →
  let input := input_of (st_mem s) pbegin pend in
  let message := upstream P a input in
  ∃ s1 s2,
    HashX11_with P indeterminate pbegin pend pResult s = Some (true, s1)
    ∧ HashX11_with (replace_stage a h' P) indeterminate pbegin pend
        pResult s = Some (true, s2)
    ∧ result_of (st_mem s1) pResult
      = take 32
          (sph_digest (P Echo512)
             (sph_digest (P SHAvite512)
                (sph_digest (P CubeHash512)
                   (sph_digest (P Groestl512)
                      (sph_digest (P Blake512) input)))))
    ∧ result_of (st_mem s1) pResult
      = downstream P a (sph_digest (P a) message)
    ∧ result_of (st_mem s2) pResult
      = downstream P a (sph_digest h' message)
    ∧ (result_of (st_mem s1) pResult ≠ result_of (st_mem s2) pResult
       ↔ downstream P a (sph_digest (P a) message)
         ≠ downstream P a (sph_digest h' message)).
Proof.
  intros HP Hh Hcall input message.
  destruct (HashX11_run_512 _ _ _ _ _ indeterminate
              (primitives_contract P HP) s pbegin pend pResult Hcall)
    as (s1 & Hrun1 & _ & _ & Hres1 & _).
  destruct (HashX11_run_512 _ _ _ _ _ indeterminate
              (primitives_contract _
                 (replace_stage_contract P a h' HP Hh))
              s pbegin pend pResult Hcall)
    as (s2 & Hrun2 & _ & _ & Hres2 & _).
  fold input in Hres1, Hres2.
  rewrite (X11_replace_stage P a h' input) in Hres2.
  pose proof Hres1 as Hchain.
  rewrite (X11_through_stage P a input) in Hres1.
  fold message in Hres1, Hres2.
  exists s1, s2.
  split; [exact Hrun1|]. split; [exact Hrun2|].
  split; [exact Hchain|]. split; [exact Hres1|]. split; [exact Hres2|].
  by rewrite Hres1, Hres2.
Qed.

(** ** Runs of the test doubles *)

(** C7, counterexample.  The first primitive closes with one byte, not
    64.  The call is not stopped: it returns true, and the Groestl-512
    stage reads 64 bytes, the one written followed by 63 stale ones. *)
Lemma C7_counterexample :
  valid_call (demo_mem [x10; x11]) (Caller 0, 0) (Caller 0, 2) (Caller 1, 4)
  ∧ length (sph_digest (constant [x07]) [x10; x11]) ≠ HASH512_SIZE
  ∧ ∃ s',
      short_run [x10; x11] = Some (true, s')
      ∧ st_log s' !! 2 = Some (EvClose Blake512 (hash 0) [x07])
      ∧ st_log s' !! 4
        = Some (EvUpdate Groestl512 (hash 0) 64 (x07 :: replicate 63 xaa)).
Proof.
  split; [exact demo_valid|]. split; [by compute|].
  eexists. split; [vm_compute; reflexivity|]. by split.
Qed.

(** C9, counterexample.  [tagged_alt x05] is another function than the
    last primitive [tagged x05], yet with it in place of the last stage
    every call leaves the same 32 bytes at [pResult]. *)
Lemma C9_counterexample :
  differ (demo_primitives Echo512) (tagged_alt x05)
  ∧ writes_512 (tagged_alt x05)
  ∧ ∀ indeterminate s pbegin pend pResult,
      valid_call (st_mem s) pbegin pend pResult →
      ∃ s1 s2,
        HashX11_with demo_primitives indeterminate pbegin pend pResult s
        = Some (true, s1)
        ∧ HashX11_with (replace_stage Echo512 (tagged_alt x05)
                          demo_primitives)
            indeterminate pbegin pend pResult s = Some (true, s2)
        ∧ result_of (st_mem s1) pResult = result_of (st_mem s2) pResult.
Proof.
  split; [|split].
  - exists []. by compute.
  - apply tagged_alt_writes_512.
  - intros indeterminate s pbegin pend pResult Hcall.
    destruct (HashX11_run_512 _ _ _ _ _ indeterminate
                (primitives_contract _ demo_primitives_contract)
                s pbegin pend pResult Hcall)
      as (s1 & Hrun1 & _ & _ & Hres1 & _).
    destruct (HashX11_run_512 _ _ _ _ _ indeterminate
                (primitives_contract _
                   (replace_stage_contract demo_primitives Echo512 _
                      demo_primitives_contract
                      (tagged_alt_writes_512 x05)))
                s pbegin pend pResult Hcall)
      as (s2 & Hrun2 & _ & _ & Hres2 & _).
    exists s1, s2. split; [exact Hrun1|]. split; [exact Hrun2|].
    rewrite Hres1, Hres2.
    rewrite (X11_through_stage demo_primitives Echo512).
    rewrite (X11_replace_stage demo_primitives Echo512).
    generalize (upstream demo_primitives Echo512
                  (input_of (st_mem s) pbegin pend)).
    intros msg. unfold downstream, sph_digest, HASH256_SIZE.
    cbn [demo_primitives tagged tagged_alt sph_close sph_update sph_init].
    rewrite take_take.
    rewrite take_app_le by (rewrite length_take; cbn [length];
                            rewrite length_app, length_replicate; lia).
    rewrite take_take. done.
Qed.

Lemma C1_witness :
  ∃ s', demo_run [x10; x11] = Some (true, s') ∧ length (st_log s') = 15.
Proof.
  destruct (C1_five_stages_in_order (tagged x01) (tagged x02) (tagged x03)
              (tagged x04) (tagged x05) (λ _, xaa)
              (demo_state [x10; x11]) (Caller 0, 0) (Caller 0, 2)
              (Caller 1, 4) demo_contract demo_valid)
    as (s' & Hrun & Hlog & _).
  exists s'. split; [exact Hrun|]. rewrite Hlog. reflexivity.
Defined.

Lemma C2_witness :
  ∃ s1 s2,
    demo_run [x10; x11] = Some (true, s1)
    ∧ HashX11 (tagged x01) (tagged x02) (tagged x03) (tagged x04)
        (tagged_alt x05) (λ _, xaa) (Caller 0, 0) (Caller 0, 2)
        (Caller 1, 4) (demo_state [x10; x11]) = Some (true, s2)
    ∧ result_of (st_mem s2) (Caller 1, 4)
      = result_of (st_mem s1) (Caller 1, 4).
Proof.
  destruct (C2_truncation (tagged x01) (tagged x02) (tagged x03)
              (tagged x04) (tagged x05) (tagged_alt x05) (λ _, xaa)
              (demo_state [x10; x11]) (Caller 0, 0) (Caller 0, 2)
              (Caller 1, 4) demo_contract (tagged_alt_writes_512 x05)
              demo_valid eq_refl)
    as (s1 & s2 & Hrun1 & Hrun2 & _ & _ & _ & Hsame).
  exists s1, s2. split; [exact Hrun1|]. split; [exact Hrun2 | exact Hsame].
Defined.

Lemma C3_witness :
  ∃ s' rest,
    demo_run [] = Some (true, s')
    ∧ st_log s' = EvInit Blake512 :: EvUpdate Blake512 pblank 0 [] :: rest.
Proof.
  destruct (C3_empty_input (tagged x01) (tagged x02) (tagged x03)
              (tagged x04) (tagged x05) (λ _, xaa)
              (demo_state []) (Caller 0, 0) (Caller 1, 4)
              demo_contract demo_valid_empty)
    as (s' & rest & Hrun & Hlog & _).
  exists s', rest. split; [exact Hrun | exact Hlog].
Defined.

Lemma C4_witness :
  ∃ s1' s2',
    demo_run [x10; x11] = Some (true, s1')
    ∧ HashX11 (tagged x01) (tagged x02) (tagged x03) (tagged x04)
        (tagged x05) (λ _, x55) (Caller 0, 0) (Caller 0, 2) (Caller 1, 0)
        (mkState (demo_mem [x10; x11; x12]) [EvInit Echo512])
      = Some (true, s2')
    ∧ result_of (st_mem s1') (Caller 1, 4)
      = result_of (st_mem s2') (Caller 1, 0).
Proof.
  assert (Hvalid2 : valid_call (demo_mem [x10; x11; x12])
                      (Caller 0, 0) (Caller 0, 2) (Caller 1, 0)).
  { unfold valid_call, caller_owned, HASH256_SIZE, SIZE_WIDTH. simpl.
    repeat split; lia. }
  destruct (C4_deterministic (tagged x01) (tagged x02) (tagged x03)
              (tagged x04) (tagged x05) (λ _, xaa) (λ _, x55)
              (demo_state [x10; x11])
              (mkState (demo_mem [x10; x11; x12]) [EvInit Echo512])
              (Caller 0, 0) (Caller 0, 2) (Caller 1, 4)
              (Caller 0, 0) (Caller 0, 2) (Caller 1, 0)
              demo_contract demo_valid Hvalid2 eq_refl)
    as (s1' & s2' & Hrun1 & Hrun2 & Hsame & _).
  exists s1', s2'. split; [exact Hrun1|]. split; [exact Hrun2 | exact Hsame].
Defined.

Lemma C5_witness : ∃ s', demo_run [] = Some (true, s').
Proof.
  exact (C5_always_true (tagged x01) (tagged x02) (tagged x03)
           (tagged x04) (tagged x05) (λ _, xaa) (demo_state [])
           (Caller 0, 0) (Caller 0, 0) (Caller 1, 4)
           demo_contract demo_valid_empty).
Defined.

Lemma C6_witness :
  ∃ s', demo_run [x10; x11] = Some (true, s')
        ∧ length (result_of (st_mem s') (Caller 1, 4)) = 32.
Proof.
  destruct (C6_sizes (tagged x01) (tagged x02) (tagged x03)
              (tagged x04) (tagged x05) (λ _, xaa)
              (demo_state [x10; x11]) (Caller 0, 0) (Caller 0, 2)
              (Caller 1, 4) demo_contract demo_valid)
    as (s' & calls & Hrun & _ & _ & _ & _ & _ & _ & _ & Hlen).
  exists s'. split; [exact Hrun | exact Hlen].
Defined.

Lemma short_fit :
  all_fit_row (constant [x07]) (tagged x02) (tagged x03) (tagged x04)
    (tagged x05).
Proof.
  repeat split; intros cc;
    try (rewrite tagged_writes_512; done).
  unfold HASH512_SIZE. simpl. lia.
Qed.

Lemma C7_witness : ∃ s', short_run [x10; x11] = Some (true, s').
Proof.
  destruct (C7_no_length_check (constant [x07]) (tagged x02) (tagged x03)
              (tagged x04) (tagged x05) (λ _, xaa)
              (demo_state [x10; x11]) (Caller 0, 0) (Caller 0, 2)
              (Caller 1, 4) short_fit demo_valid)
    as (s' & Hrun & _).
  exists s'. exact Hrun.
Defined.

Lemma C8_witness :
  ∃ sx sy,
    HashX11 (tagged x01) (tagged x02) (tagged x03) (tagged x04)
      (tagged x05) (λ _, xaa) (Caller 0, 0) (Caller 0, 0) (Caller 1, 4)
      (mkState (mem_set (demo_mem []) Static_pblank [x00]) [])
    = Some (true, sx)
    ∧ HashX11 (tagged x01) (tagged x02) (tagged x03) (tagged x04)
        (tagged x05) (λ _, xaa) (Caller 0, 0) (Caller 0, 0) (Caller 1, 4)
        (mkState (mem_set (demo_mem []) Static_pblank [xff]) [])
      = Some (true, sy)
    ∧ result_of (st_mem sx) (Caller 1, 4)
      = result_of (st_mem sy) (Caller 1, 4).
Proof.
  destruct (C8_placeholder_irrelevant (tagged x01) (tagged x02)
              (tagged x03) (tagged x04) (tagged x05) (λ _, xaa)
              (demo_mem []) [] x00 xff (Caller 0, 0) (Caller 0, 0)
              (Caller 1, 4) demo_contract demo_valid_empty)
    as (sx & sy & Hx & Hy & Hsame & _).
  exists sx, sy. split; [exact Hx|]. split; [exact Hy | exact Hsame].
Defined.

Lemma C9_witness :
  ∃ s1 s2,
    HashX11_with demo_primitives (λ _, xaa) (Caller 0, 0) (Caller 0, 2)
      (Caller 1, 4) (demo_state [x10; x11]) = Some (true, s1)
    ∧ HashX11_with
        (replace_stage Groestl512 (constant (replicate 64 x00))
           demo_primitives)
        (λ _, xaa) (Caller 0, 0) (Caller 0, 2) (Caller 1, 4)
        (demo_state [x10; x11]) = Some (true, s2)
    ∧ result_of (st_mem s1) (Caller 1, 4)
      ≠ result_of (st_mem s2) (Caller 1, 4).
Proof.
  destruct (C9_stage_dependence demo_primitives Groestl512
              (constant (replicate 64 x00)) (λ _, xaa)
              (demo_state [x10; x11]) (Caller 0, 0) (Caller 0, 2)
              (Caller 1, 4) demo_primitives_contract
              (constant_writes_512 (replicate 64 x00) eq_refl) demo_valid)
    as (s1 & s2 & Hrun1 & Hrun2 & _ & _ & _ & Hiff).
  exists s1, s2. split; [exact Hrun1|]. split; [exact Hrun2|].
  apply Hiff. vm_compute. discriminate.
Defined.

Lemma C10_witness :
  ∃ s', demo_run [x10; x11] = Some (true, s')
        ∧ st_mem s' Static_pblank = [x00].
Proof.
  destruct (C10_frame (tagged x01) (tagged x02) (tagged x03)
              (tagged x04) (tagged x05) (λ _, xaa)
              (demo_state [x10; x11]) (Caller 0, 0) (Caller 0, 2)
              (Caller 1, 4) (all_write_fit _ _ _ _ _ demo_contract)
              demo_valid)
    as (s' & calls & Hrun & _ & _ & Hblank & _).
  exists s'. split; [exact Hrun | exact Hblank].
Defined.

(** ** [trim256] on its own *)

Lemma bind_inv {A B} (c : M A) (k : A → M B) s b s' :
  mbind' c k s = Some (b, s') →
  ∃ a s1, c s = Some (a, s1) ∧ k a s1 = Some (b, s').
Proof.
  unfold mbind'. destruct (c s) as [[a s1]|] eqn:E; [|done].
  intros H. by exists a, s1.
Qed.

Lemma load_byte_inv p s x s1 :
  load_byte p s = Some (x, s1) → st_mem s p.1 !! p.2 = Some x ∧ s1 = s.
Proof.
  unfold load_byte. destruct (st_mem s p.1 !! p.2) as [y|]; [|done].
  intros [= -> ->]. done.
Qed.

Lemma store_byte_inv p x s s1 :
  store_byte p x s = Some (tt, s1) →
  p.2 < length (st_mem s p.1)
  ∧ s1 = mkState (mem_set (st_mem s) p.1 (splice p.2 [x] (st_mem s p.1)))
           (st_log s).
Proof.
  unfold store_byte, store. simpl. case_decide as Hin; [|done].
  intros [= <-]. split; [lia | done].
Qed.

Lemma splice_byte o x (l : list byte) :
  o < length l → splice o [x] l = <[o:=x]> l.
Proof.
  intros Ho. unfold splice. simpl.
  apply list_eq. intros k.
  destruct (decide (k = o)) as [->|Hne].
  - rewrite list_lookup_insert_eq by done.
    rewrite lookup_app_r by (rewrite length_take; lia).
    rewrite length_take, Nat.min_l by lia.
    by rewrite Nat.sub_diag.
  - rewrite list_lookup_insert_ne by done.
    destruct (decide (k < o)) as [Hlt|Hge].
    + rewrite lookup_app_l by (rewrite length_take; lia).
      by rewrite lookup_take_lt.
    + rewrite lookup_app_r by (rewrite length_take; lia).
      rewrite length_take, Nat.min_l by lia.
      destruct (k - o) as [|j] eqn:E; [lia|]. simpl.
      rewrite lookup_drop. f_equal. lia.
Qed.

(** A byte store keeps the size of every object, the log, and every
    object but the one written. *)
Lemma store_byte_keeps p x s s1 :
  store_byte p x s = Some (tt, s1) →
  st_log s1 = st_log s
  ∧ (∀ b, length (st_mem s1 b) = length (st_mem s b))
  ∧ ∀ b, b ≠ p.1 → st_mem s1 b = st_mem s b.
Proof.
  intros H. apply store_byte_inv in H as (Hin & ->). simpl.
  split; [done|]. split.
  - intros b. unfold mem_set. case_decide as E; [|done].
    subst b. apply length_splice. simpl. lia.
  - intros b Hb. by apply mem_set_other.
Qed.

Lemma trim256_loop_keeps pn ret n :
  ∀ i s s',
    trim256_loop pn ret i n s = Some (tt, s') →
    st_log s' = st_log s
    ∧ (∀ b, length (st_mem s' b) = length (st_mem s b))
    ∧ ∀ b, b ≠ ret.1 → st_mem s' b = st_mem s b.
Proof.
  induction n as [|n IH]; intros i s s' H.
  - injection H as <-. done.
  - simpl in H.
    apply bind_inv in H as (x & s0 & Hload & H).
    apply load_byte_inv in Hload as (_ & ->).
    apply bind_inv in H as ([] & s1 & Hstore & H).
    apply store_byte_keeps in Hstore as (L1 & N1 & F1).
    apply IH in H as (L2 & N2 & F2).
    split; [by rewrite L2|]. split.
    + intros b. by rewrite N2.
    + intros b Hb. rewrite F2 by done. by apply F1.
Qed.

Lemma trim256_loop_defined pn ret n :
  ∀ i s,
    is_Some (trim256_loop pn ret i n s)
    ↔ n = 0 ∨ (pn.2 + i + n ≤ length (st_mem s pn.1)
               ∧ ret.2 + i + n ≤ length (st_mem s ret.1)).
Proof.
  induction n as [|n IH]; intros i s.
  - simpl. split; [by left | by eexists].
  - split.
    + intros [[[] s'] H]. right. simpl in H.
      apply bind_inv in H as (x & s0 & Hload & H).
      apply load_byte_inv in Hload as (Hx & ->).
      apply lookup_lt_Some in Hx. simpl in Hx.
      apply bind_inv in H as ([] & s1 & Hstore & H).
      pose proof Hstore as Hkeep.
      apply store_byte_inv in Hstore as (Hin & _). simpl in Hin.
      apply store_byte_keeps in Hkeep as (_ & N1 & _).
      assert (Hsome : is_Some (trim256_loop pn ret (S i) n s1))
        by by eexists.
      apply IH in Hsome as [-> | [H1 H2]]; [lia|].
      rewrite N1 in H1, H2. lia.
    + intros [H | [H1 H2]]; [done|].
      destruct (lookup_lt_is_Some_2 (st_mem s pn.1) (pn.2 + i)) as [x Hx];
        [lia|].
      assert (Hload : load_byte (ptr_add pn i) s = Some (x, s)).
      { unfold load_byte, ptr_add. simpl. by rewrite Hx. }
      destruct (store_byte (ptr_add ret i) x s) as [[[] s1]|] eqn:Hstore.
      * pose proof (store_byte_keeps _ _ _ _ Hstore) as (_ & N1 & _).
        destruct (proj2 (IH (S i) s1)) as [r Hr].
        { right. rewrite !N1. lia. }
        exists r. simpl.
        rewrite (bind_run _ _ _ _ _ Hload).
        by rewrite (bind_run _ _ _ _ _ Hstore).
      * unfold store_byte in Hstore.
        rewrite store_in_range in Hstore; [done|]. simpl. lia.
Qed.

(** X2.  [trim256] is defined exactly when both pointers have 32 bytes of
    their object in front of them, however the two ranges lie to each
    other. *)
Theorem trim256_defined pn ret s :
  is_Some (trim256 pn ret s)
  ↔ pn.2 + HASH256_SIZE ≤ length (st_mem s pn.1)
    ∧ ret.2 + HASH256_SIZE ≤ length (st_mem s ret.1).
Proof.
  unfold trim256. rewrite trim256_loop_defined.
  rewrite !Nat.add_0_r. unfold HASH256_SIZE. split.
  - intros [H | H]; [done | exact H].
  - intros H. by right.
Qed.

(** The loop inside one object, the destination not after the source:
    every byte is read before it can be overwritten. *)
Lemma trim256_loop_run_back pn ret n :
  ∀ i s,
    ret.1 = pn.1 → ret.2 ≤ pn.2 →
    pn.2 + i + n ≤ length (st_mem s pn.1) →
    ∃ s',
      trim256_loop pn ret i n s = Some (tt, s')
      ∧ st_mem s' ret.1
        = splice (ret.2 + i) (take n (drop (pn.2 + i) (st_mem s pn.1)))
            (st_mem s ret.1).
Proof.
  induction n as [|n IH]; intros i s Hblk Hle Hpn.
  - exists s. simpl. split; [done|].
    unfold splice. simpl. rewrite Nat.add_0_r. by rewrite take_drop.
  - destruct (lookup_lt_is_Some_2 (st_mem s pn.1) (pn.2 + i)) as [x Hx];
      [lia|].
    set (s1 := mkState (mem_set (st_mem s) ret.1
                          (splice (ret.2 + i) [x] (st_mem s ret.1)))
                       (st_log s)).
    assert (Hload : load_byte (ptr_add pn i) s = Some (x, s)).
    { unfold load_byte, ptr_add. simpl. by rewrite Hx. }
    assert (Hstore : store_byte (ptr_add ret i) x s = Some (tt, s1)).
    { unfold store_byte. rewrite store_in_range; [done|].
      unfold ptr_add. simpl. rewrite Hblk. lia. }
    assert (H1 : st_mem s1 pn.1 = splice (ret.2 + i) [x] (st_mem s pn.1)).
    { unfold s1. simpl. rewrite <- Hblk, mem_set_same. by rewrite Hblk. }
    assert (Hlen : length (st_mem s1 pn.1) = length (st_mem s pn.1)).
    { rewrite H1. apply length_splice. simpl. lia. }
    destruct (IH (S i) s1) as (s' & Hrun & Hmem);
      [done | done | rewrite Hlen; lia |].
    exists s'. split.
    + simpl. rewrite (bind_run _ _ _ _ _ Hload).
      by rewrite (bind_run _ _ _ _ _ Hstore).
    + rewrite Hmem. rewrite Hblk, H1.
      rewrite drop_splice_above by (simpl; lia).
      rewrite (take_drop_step n (pn.2 + i) x) by done.
      replace (ret.2 + S i) with (ret.2 + i + 1) by lia.
      replace (pn.2 + S i) with (pn.2 + i + 1) by lia.
      apply splice_cons.
      rewrite length_take, length_drop. lia.
Qed.

(** X1.  When the destination lies in another object than the source, or
    in the same object not after it, [trim256] moves the 32 bytes at [pn]
    to [ret] as they were before the call; it changes no other byte and
    makes no sphlib call. *)
Theorem trim256_copies pn ret s :
  ret.1 ≠ pn.1 ∨ ret.2 ≤ pn.2 →
  pn.2 + HASH256_SIZE ≤ length (st_mem s pn.1) →
  ret.2 + HASH256_SIZE ≤ length (st_mem s ret.1) →
  ∃ s',
    trim256 pn ret s = Some (tt, s')
    ∧ st_log s' = st_log s
    ∧ st_mem s' ret.1
      = splice ret.2 (take HASH256_SIZE (drop pn.2 (st_mem s pn.1)))
          (st_mem s ret.1)
    ∧ result_of (st_mem s') ret = result_of (st_mem s) pn
    ∧ ∀ b, b ≠ ret.1 → st_mem s' b = st_mem s b.
Proof.
  intros Hcase Hpn Hret. unfold trim256.
  assert (Hrun : ∃ s',
            trim256_loop pn ret 0 HASH256_SIZE s = Some (tt, s')
            ∧ st_mem s' ret.1
              = splice ret.2 (take HASH256_SIZE (drop pn.2 (st_mem s pn.1)))
                  (st_mem s ret.1)).
  { destruct (decide (ret.1 = pn.1)) as [Hblk|Hblk].
    - destruct Hcase as [Hne|Hle]; [done|].
      destruct (trim256_loop_run_back pn ret HASH256_SIZE 0 s)
        as (s' & Hrun & Hmem); [done | done | lia |].
      rewrite !Nat.add_0_r in Hmem. by exists s'.
    - destruct (trim256_loop_run pn ret HASH256_SIZE 0 s)
        as (s' & Hrun & _ & Hmem & _); [done | lia | lia |].
      rewrite !Nat.add_0_r in Hmem. by exists s'. }
  destruct Hrun as (s' & Hrun & Hmem).
  pose proof (trim256_loop_keeps _ _ _ _ _ _ Hrun) as (Hlog & _ & Hframe).
  exists s'. split; [exact Hrun|]. split; [exact Hlog|].
  split; [exact Hmem|]. split; [|exact Hframe].
  eapply result_of_splice; [exact Hmem | | exact Hret].
  unfold result_of. rewrite length_take, length_drop. lia.
Qed.

(** The loop inside one object, the destination [d] bytes after the
    source: from the [d]-th byte on it reads what it wrote itself. *)
Lemma trim256_loop_run_forward pn ret d (l : list byte) n :
  ∀ i s,
    ret.1 = pn.1 → ret.2 = pn.2 + d → 0 < d →
    ret.2 + i + n ≤ length l →
    length (st_mem s pn.1) = length l →
    (∀ k, st_mem s pn.1 !! k
          = if decide (ret.2 ≤ k < ret.2 + i)
            then l !! (pn.2 + (k - ret.2) mod d)
            else l !! k) →
    ∃ s',
      trim256_loop pn ret i n s = Some (tt, s')
      ∧ ∀ k, st_mem s' pn.1 !! k
             = if decide (ret.2 ≤ k < ret.2 + (i + n))
               then l !! (pn.2 + (k - ret.2) mod d)
               else l !! k.
Proof.
  induction n as [|n IH]; intros i s Hblk Hd Hpos Hin Hlen Hinv.
  - exists s. split; [done|]. by rewrite Nat.add_0_r.
  - assert (Hmod : i mod d < d) by (apply Nat.mod_upper_bound; lia).
    assert (Hread : st_mem s pn.1 !! (pn.2 + i) = l !! (pn.2 + i mod d)).
    { rewrite Hinv. case_decide as Hc.
      - replace (pn.2 + i - ret.2) with (i - d) by lia.
        do 2 f_equal.
        replace i with ((i - d) + 1 * d) at 2 by lia.
        by rewrite Nat.Div0.mod_add.
      - rewrite Nat.mod_small by lia. done. }
    destruct (lookup_lt_is_Some_2 l (pn.2 + i mod d)) as [x Hx]; [lia|].
    rewrite Hx in Hread.
    set (s1 := mkState (mem_set (st_mem s) ret.1
                          (splice (ret.2 + i) [x] (st_mem s ret.1)))
                       (st_log s)).
    assert (Hload : load_byte (ptr_add pn i) s = Some (x, s)).
    { unfold load_byte, ptr_add. simpl. by rewrite Hread. }
    assert (Hstore : store_byte (ptr_add ret i) x s = Some (tt, s1)).
    { unfold store_byte. rewrite store_in_range; [done|].
      unfold ptr_add. simpl. rewrite Hblk, Hlen. lia. }
    assert (H1 : st_mem s1 pn.1 = <[ret.2 + i := x]> (st_mem s pn.1)).
    { unfold s1. simpl. rewrite <- Hblk, mem_set_same.
      apply splice_byte. rewrite Hblk, Hlen. lia. }
    destruct (IH (S i) s1) as (s' & Hrun & Hmem);
      [done | done | done | lia | by rewrite H1, length_insert | |].
    + intros k. rewrite H1.
      destruct (decide (k = ret.2 + i)) as [->|Hne].
      * rewrite list_lookup_insert_eq by (rewrite Hlen; lia).
        rewrite decide_True by lia.
        replace (ret.2 + i - ret.2) with i by lia. done.
      * rewrite list_lookup_insert_ne by done. rewrite Hinv.
        repeat case_decide; try done; lia.
    + exists s'. split.
      * simpl. rewrite (bind_run _ _ _ _ _ Hload).
        by rewrite (bind_run _ _ _ _ _ Hstore).
      * intros k. rewrite Hmem.
        replace (S i + n) with (i + S n) by lia. done.
Qed.

(** X3.  When the destination lies [d > 0] bytes after the source in the
    same object, byte [j] of the result is byte [j mod d] of the source
    as it was before the call: with [d >= 32] a plain copy, with a
    smaller [d] the first [d] source bytes over and over.  Bytes outside
    the destination keep their value. *)
Theorem trim256_overlap_forward pn ret d s :
  ret.1 = pn.1 → ret.2 = pn.2 + d → 0 < d →
  ret.2 + HASH256_SIZE ≤ length (st_mem s pn.1) →
  ∃ s',
    trim256 pn ret s = Some (tt, s')
    ∧ (∀ j, j < HASH256_SIZE →
         st_mem s' ret.1 !! (ret.2 + j) = st_mem s pn.1 !! (pn.2 + j mod d))
    ∧ (∀ k, k < ret.2 ∨ ret.2 + HASH256_SIZE ≤ k →
         st_mem s' ret.1 !! k = st_mem s ret.1 !! k)
    ∧ (∀ b, b ≠ ret.1 → st_mem s' b = st_mem s b)
    ∧ st_log s' = st_log s.
Proof.
  intros Hblk Hd Hpos Hin. unfold trim256.
  destruct (trim256_loop_run_forward pn ret d (st_mem s pn.1)
              HASH256_SIZE 0 s) as (s' & Hrun & Hmem);
    [done | done | done | lia | done | |].
  { intros k. rewrite decide_False by lia. done. }
  pose proof (trim256_loop_keeps _ _ _ _ _ _ Hrun) as (Hlog & _ & Hframe).
  exists s'. split; [exact Hrun|].
  split; [|split; [|split; [exact Hframe | exact Hlog]]]; rewrite Hblk.
  - intros j Hj. rewrite Hmem. rewrite decide_True by (simpl; lia).
    replace (pn.2 + d + j - ret.2) with j by lia.
    by replace (ret.2 + j - ret.2) with j by lia.
  - intros k Hk. rewrite Hmem. rewrite decide_False by (simpl; lia). done.
Qed.

(** ** Reading a completed run backwards *)

Lemma load_inv (m : mem) (p : ptr) n bs :
  load m p n = Some bs →
  p.2 + n ≤ length (m p.1) ∧ bs = take n (drop p.2 (m p.1)) ∧ length bs = n.
Proof.
  unfold load. case_decide as Hin; [|done]. intros [= <-].
  split; [done|]. split; [done|].
  rewrite length_take, length_drop. lia.
Qed.

Lemma store_inv (m : mem) (p : ptr) bs m' :
  store m p bs = Some m' →
  p.2 + length bs ≤ length (m p.1)
  ∧ m' = mem_set m p.1 (splice p.2 bs (m p.1)).
Proof.
  unfold store. case_decide as Hin; [|done]. intros [= <-]. done.
Qed.

Lemma sph_init_call_inv a h s c s1 :
  sph_init_call a h s = Some (c, s1) →
  c = sph_init h ∧ s1 = mkState (st_mem s) (st_log s ++ [EvInit a]).
Proof. intros [= <- <-]. done. Qed.

Lemma sph_call_inv a h cc data len s c s1 :
  sph_call a h cc data len s = Some (c, s1) →
  ∃ bs,
    load (st_mem s) data (Z.to_nat len) = Some bs
    ∧ c = sph_update h cc bs
    ∧ s1 = mkState (st_mem s) (st_log s ++ [EvUpdate a data len bs]).
Proof.
  unfold sph_call.
  destruct (load (st_mem s) data (Z.to_nat len)) as [bs|]; [|done].
  intros [= <- <-]. by exists bs.
Qed.

Lemma sph_close_call_inv a h cc dst s u s1 :
  sph_close_call a h cc dst s = Some (u, s1) →
  ∃ m',
    store (st_mem s) dst (sph_close h cc) = Some m'
    ∧ s1 = mkState m' (st_log s ++ [EvClose a dst (sph_close h cc)]).
Proof.
  unfold sph_close_call.
  destruct (store (st_mem s) dst (sph_close h cc)) as [m'|]; [|done].
  intros [= <-]. by exists m'.
Qed.

Lemma ptr_diff_inv (p q : ptr) s n s1 :
  ptr_diff p q s = Some (n, s1) →
  p.1 = q.1 ∧ n = (Z.of_nat p.2 - Z.of_nat q.2)%Z ∧ s1 = s.
Proof.
  unfold ptr_diff. case_decide as E; [|done]. intros [= <- <-]. done.
Qed.

Section Inversion.

Variables blake512 groestl512 cubehash512 shavite512 echo512 : sph_hash.
Variable indeterminate : nat → byte.

(** Every access a completed run has made, in order. *)
Lemma HashX11_inv s pbegin pend pResult r s' :
  HashX11 blake512 groestl512 cubehash512 shavite512 echo512 indeterminate
    pbegin pend pResult s = Some (r, s') →
  r = true ∧ pend.1 = pbegin.1
  ∧ ∃ input r1 r2 r3 r4 m1 m2 m3 m4 m5,
      let data := if decide (pbegin = pend) then pblank else pbegin in
      let len := to_size_t ((Z.of_nat pend.2 - Z.of_nat pbegin.2) * 1) in
      let m0 := mem_set (st_mem s) Local_hash (fresh_hash indeterminate) in
      load m0 data (Z.to_nat len) = Some input
      ∧ store m0 (hash 0) (sph_digest blake512 input) = Some m1
      ∧ load m1 (hash 0) 64 = Some r1
      ∧ store m1 (hash 1) (sph_digest groestl512 r1) = Some m2
      ∧ load m2 (hash 1) 64 = Some r2
      ∧ store m2 (hash 2) (sph_digest cubehash512 r2) = Some m3
      ∧ load m3 (hash 2) 64 = Some r3
      ∧ store m3 (hash 3) (sph_digest shavite512 r3) = Some m4
      ∧ load m4 (hash 3) 64 = Some r4
      ∧ store m4 (hash 4) (sph_digest echo512 r4) = Some m5
      ∧ trim256 (hash 4) pResult
          (mkState m5
             (st_log s
              ++ [ EvInit Blake512;
                   EvUpdate Blake512 data len input;
                   EvClose Blake512 (hash 0) (sph_digest blake512 input);
                   EvInit Groestl512;
                   EvUpdate Groestl512 (hash 0) 64 r1;
                   EvClose Groestl512 (hash 1) (sph_digest groestl512 r1);
                   EvInit CubeHash512;
                   EvUpdate CubeHash512 (hash 1) 64 r2;
                   EvClose CubeHash512 (hash 2) (sph_digest cubehash512 r2);
                   EvInit SHAvite512;
                   EvUpdate SHAvite512 (hash 2) 64 r3;
                   EvClose SHAvite512 (hash 3) (sph_digest shavite512 r3);
                   EvInit Echo512;
                   EvUpdate Echo512 (hash 3) 64 r4;
                   EvClose Echo512 (hash 4) (sph_digest echo512 r4) ]))
        = Some (tt, s').
Proof.
  unfold HashX11. intros H.
  apply bind_inv in H as ([] & s0 & H0 & H).
  injection H0 as <-.
  apply bind_inv in H as (c & ? & Hi & H).
  apply sph_init_call_inv in Hi as (-> & ->).
  apply bind_inv in H as (n & ? & Hd & H).
  apply ptr_diff_inv in Hd as (Hblk & -> & ->).
  apply bind_inv in H as (c & ? & Hu & H).
  apply sph_call_inv in Hu as (input & L0 & -> & ->).
  apply bind_inv in H as ([] & ? & Hc & H).
  apply sph_close_call_inv in Hc as (m1 & S1 & ->).
  apply bind_inv in H as (c & ? & Hi & H).
  apply sph_init_call_inv in Hi as (-> & ->).
  apply bind_inv in H as (c & ? & Hu & H).
  apply sph_call_inv in Hu as (r1 & L1 & -> & ->).
  apply bind_inv in H as ([] & ? & Hc & H).
  apply sph_close_call_inv in Hc as (m2 & S2 & ->).
  apply bind_inv in H as (c & ? & Hi & H).
  apply sph_init_call_inv in Hi as (-> & ->).
  apply bind_inv in H as (c & ? & Hu & H).
  apply sph_call_inv in Hu as (r2 & L2 & -> & ->).
  apply bind_inv in H as ([] & ? & Hc & H).
  apply sph_close_call_inv in Hc as (m3 & S3 & ->).
  apply bind_inv in H as (c & ? & Hi & H).
  apply sph_init_call_inv in Hi as (-> & ->).
  apply bind_inv in H as (c & ? & Hu & H).
  apply sph_call_inv in Hu as (r3 & L3 & -> & ->).
  apply bind_inv in H as ([] & ? & Hc & H).
  apply sph_close_call_inv in Hc as (m4 & S4 & ->).
  apply bind_inv in H as (c & ? & Hi & H).
  apply sph_init_call_inv in Hi as (-> & ->).
  apply bind_inv in H as (c & ? & Hu & H).
  apply sph_call_inv in Hu as (r4 & L4 & -> & ->).
  apply bind_inv in H as ([] & ? & Hc & H).
  apply sph_close_call_inv in Hc as (m5 & S5 & ->).
  apply bind_inv in H as ([] & s6 & Ht & H).
  injection H as <- <-.
  cbn [st_mem st_log] in *.
  split; [done|]. split; [done|].
  exists input, r1, r2, r3, r4, m1, m2, m3, m4, m5.
  cbv zeta. repeat (split; [assumption|]).
  rewrite <- !app_assoc in Ht. exact Ht.
Qed.

End Inversion.

Lemma store_hash_inv (m : mem) i d m' :
  store m (hash i) d = Some m' →
  i * HASH512_SIZE + length d ≤ length (m Local_hash)
  ∧ length (m' Local_hash) = length (m Local_hash)
  ∧ m' Local_hash = splice (i * HASH512_SIZE) d (m Local_hash)
  ∧ ∀ b, b ≠ Local_hash → m' b = m b.
Proof.
  intros H. apply store_inv in H as (Hin & ->). simpl in *.
  split; [done|]. rewrite mem_set_same.
  split; [by apply length_splice|]. split; [done|].
  intros b Hb. by apply mem_set_other.
Qed.

Section Completed.

Variables blake512 groestl512 cubehash512 shavite512 echo512 : sph_hash.
Variable indeterminate : nat → byte.

(** X4.  Whatever the primitives write and whatever pointers it is
    given, a call that completes returns true and has made the fifteen
    sphlib calls in the fixed order, each later stage being told to read
    64 bytes from the row the stage before it closed into, and reading
    64. *)
Theorem HashX11_completed s pbegin pend pResult r s' :
  HashX11 blake512 groestl512 cubehash512 shavite512 echo512 indeterminate
    pbegin pend pResult s = Some (r, s') →
  r = true
  ∧ ∃ input r1 r2 r3 r4,
      length r1 = 64 ∧ length r2 = 64 ∧ length r3 = 64 ∧ length r4 = 64
      ∧ st_log s'
        = st_log s
          ++ [ EvInit Blake512;
               EvUpdate Blake512
                 (if decide (pbegin = pend) then pblank else pbegin)
                 (to_size_t ((Z.of_nat pend.2 - Z.of_nat pbegin.2) * 1))
                 input;
               EvClose Blake512 (hash 0) (sph_digest blake512 input);
               EvInit Groestl512;
               EvUpdate Groestl512 (hash 0) 64 r1;
               EvClose Groestl512 (hash 1) (sph_digest groestl512 r1);
               EvInit CubeHash512;
               EvUpdate CubeHash512 (hash 1) 64 r2;
               EvClose CubeHash512 (hash 2) (sph_digest cubehash512 r2);
               EvInit SHAvite512;
               EvUpdate SHAvite512 (hash 2) 64 r3;
               EvClose SHAvite512 (hash 3) (sph_digest shavite512 r3);
               EvInit Echo512;
               EvUpdate Echo512 (hash 3) 64 r4;
               EvClose Echo512 (hash 4) (sph_digest echo512 r4) ].
Proof.
  intros H.
  apply HashX11_inv in H
    as (-> & _ & input & r1 & r2 & r3 & r4 & m1 & m2 & m3 & m4 & m5 & H).
  cbv zeta in H.
  destruct H as (_ & _ & L1 & _ & L2 & _ & L3 & _ & L4 & _ & Ht).
  apply load_inv in L1 as (_ & _ & L1).
  apply load_inv in L2 as (_ & _ & L2).
  apply load_inv in L3 as (_ & _ & L3).
  apply load_inv in L4 as (_ & _ & L4).
  apply trim256_loop_keeps in Ht as (Hlog & _).
  split; [done|]. exists input, r1, r2, r3, r4.
  repeat (split; [assumption|]). exact Hlog.
Qed.

(** X5.  In a call that completes every close has stayed inside [hash]:
    the digest closed into row [i] is at most [64 * (5 - i)] bytes long,
    the last one at most 64. *)
Theorem HashX11_closes_inside_hash s pbegin pend pResult r s' :
  HashX11 blake512 groestl512 cubehash512 shavite512 echo512 indeterminate
    pbegin pend pResult s = Some (r, s') →
  ∃ calls d5,
    st_log s' = st_log s ++ calls
    ∧ Forall event_in_hash calls
    ∧ last calls = Some (EvClose Echo512 (hash 4) d5)
    ∧ length d5 ≤ HASH512_SIZE.
Proof.
  intros H.
  apply HashX11_inv in H
    as (_ & _ & input & r1 & r2 & r3 & r4 & m1 & m2 & m3 & m4 & m5 & H).
  cbv zeta in H.
  destruct H as (_ & S1 & _ & S2 & _ & S3 & _ & S4 & _ & S5 & Ht).
  apply store_hash_inv in S1 as (B1 & N1 & _).
  apply store_hash_inv in S2 as (B2 & N2 & _).
  apply store_hash_inv in S3 as (B3 & N3 & _).
  apply store_hash_inv in S4 as (B4 & N4 & _).
  apply store_hash_inv in S5 as (B5 & N5 & _).
  rewrite mem_set_same, length_fresh_hash in B1, N1.
  rewrite N1 in B2, N2. rewrite N2 in B3, N3.
  rewrite N3 in B4, N4. rewrite N4 in B5.
  apply trim256_loop_keeps in Ht as (Hlog & _).
  cbn [st_log] in Hlog.
  eexists. eexists. split; [exact Hlog|]. unfold HASH512_SIZE in *.
  split; [|split; [reflexivity | lia]].
  repeat (apply Forall_cons; split;
          [first [exact I | split; [reflexivity | simpl; lia]]|]).
  constructor.
Qed.

Lemma HashX11_empty_pointer (p q pResult : ptr) s :
  HashX11 blake512 groestl512 cubehash512 shavite512 echo512 indeterminate
    p p pResult s
  = HashX11 blake512 groestl512 cubehash512 shavite512 echo512 indeterminate
      q q pResult s.
Proof.
  unfold HashX11.
  assert (R0 : declare_hash indeterminate s
               = Some (tt, mkState (mem_set (st_mem s) Local_hash
                                      (fresh_hash indeterminate))
                             (st_log s))) by done.
  rewrite !(bind_run _ _ _ _ _ R0).
  rewrite !(bind_run _ _ _ _ _ (sph_init_call_run _ _ _)).
  rewrite (bind_run _ _ _ _ _ (ptr_diff_run p p _ eq_refl)).
  rewrite (bind_run _ _ _ _ _ (ptr_diff_run q q _ eq_refl)).
  rewrite !Z.sub_diag, !decide_True by done. reflexivity.
Qed.

(** X6.  With [pbegin == pend] the pointer is never used: the call does
    the same whatever it is, inside an object or not. *)
Theorem HashX11_empty_any_pointer (p q pResult : ptr) s :
  HashX11 blake512 groestl512 cubehash512 shavite512 echo512 indeterminate
    p p pResult s
  = HashX11 blake512 groestl512 cubehash512 shavite512 echo512 indeterminate
      q q pResult s.
Proof. apply HashX11_empty_pointer. Qed.

End Completed.

Lemma size_t_range (pb pe L : nat) :
  (Z.of_nat pe < 2 ^ SIZE_WIDTH)%Z →
  (Z.of_nat L < 2 ^ SIZE_WIDTH)%Z →
  pb ≠ pe →
  pb + Z.to_nat (to_size_t ((Z.of_nat pe - Z.of_nat pb) * 1)) ≤ L →
  pb < pe ∧ pe ≤ L.
Proof.
  unfold to_size_t, SIZE_WIDTH.
  change (2 ^ 64)%Z with 18446744073709551616%Z.
  intros Hpe HL Hne H.
  rewrite Z.mul_1_r in H.
  zify. Z.div_mod_to_equations. lia.
Qed.

Section Defined.

Variables blake512 groestl512 cubehash512 shavite512 echo512 : sph_hash.
Variable indeterminate : nat → byte.

(** X7.  For primitives that close with at most 64 bytes, a call on
    pointers of the caller is defined exactly when the result pointer has
    32 bytes of its object in front of it and the range is either empty
    ([pbegin == pend], wherever that points) or runs forward inside one
    object.  A range given backwards, or across two objects, or past the
    end of its object, leaves the call undefined. *)
Theorem HashX11_defined s pbegin pend pResult :
  all_fit_row blake512 groestl512 cubehash512 shavite512 echo512 →
  caller_owned pbegin → caller_owned pResult →
  (Z.of_nat pend.2 < 2 ^ SIZE_WIDTH)%Z →
  (Z.of_nat (length (st_mem s pbegin.1)) < 2 ^ SIZE_WIDTH)%Z →
  is_Some (HashX11 blake512 groestl512 cubehash512 shavite512 echo512
             indeterminate pbegin pend pResult s)
  ↔ (pbegin = pend
     ∨ (pbegin.1 = pend.1 ∧ pbegin.2 < pend.2
        ∧ pend.2 ≤ length (st_mem s pbegin.1)))
    ∧ pResult.2 + HASH256_SIZE ≤ length (st_mem s pResult.1).
Proof.
  intros Hfit Hown HownR Hpe Hsz. split.
  - intros [[r s'] H].
    apply HashX11_inv in H
      as (_ & Hblk & input & r1 & r2 & r3 & r4 & m1 & m2 & m3 & m4 & m5 & H).
    cbv zeta in H.
    destruct H as (L0 & S1 & _ & S2 & _ & S3 & _ & S4 & _ & S5 & Ht).
    pose proof (caller_owned_not_hash _ Hown) as Hne.
    pose proof (caller_owned_not_hash _ HownR) as HneR.
    split.
    + destruct (decide (pbegin = pend)) as [E|N]; [by left | right].
      apply load_inv in L0 as (L0 & _).
      rewrite mem_set_other in L0 by done.
      assert (Hoff : pbegin.2 ≠ pend.2).
      { intros E. apply N. destruct pbegin, pend. simpl in *. congruence. }
      destruct (size_t_range _ _ _ Hpe Hsz Hoff L0). done.
    + pose proof (mk_is_Some _ _ Ht) as Hdef. unfold trim256 in Hdef.
      apply trim256_loop_defined in Hdef as [Hz | (_ & Hdef)]; [done|].
      cbn [st_mem] in Hdef. rewrite Nat.add_0_r in Hdef.
      apply store_hash_inv in S1 as (_ & _ & _ & F1).
      apply store_hash_inv in S2 as (_ & _ & _ & F2).
      apply store_hash_inv in S3 as (_ & _ & _ & F3).
      apply store_hash_inv in S4 as (_ & _ & _ & F4).
      apply store_hash_inv in S5 as (_ & _ & _ & F5).
      rewrite F5, F4, F3, F2, F1, mem_set_other in Hdef by done. done.
  - intros [Hrange HinR].
    destruct Hrange as [<- | (Hblk & Hlt & Hin)].
    + rewrite (HashX11_empty_pointer _ _ _ _ _ indeterminate
                 pbegin (pbegin.1, 0) pResult s).
      destruct (HashX11_run blake512 groestl512 cubehash512 shavite512
                  echo512 indeterminate s (pbegin.1, 0) (pbegin.1, 0)
                  pResult Hfit) as (s' & Hrun & _).
      { unfold valid_call. simpl. repeat split; try done; lia. }
      by eexists.
    + destruct (HashX11_run blake512 groestl512 cubehash512 shavite512
                  echo512 indeterminate s pbegin pend pResult Hfit)
        as (s' & Hrun & _).
      { unfold valid_call. repeat split; try done; lia. }
      by eexists.
Qed.

End Defined.

(** ** Calls in sequence, calls in place, and what stays in [hash] *)

Lemma splice_app_row (pre d old : list byte) :
  length d ≤ length old →
  splice (length pre) d (pre ++ old) = pre ++ d ++ drop (length d) old.
Proof.
  intros H. unfold splice.
  rewrite take_app_length.
  rewrite drop_app_ge by lia.
  do 3 f_equal. lia.
Qed.

Lemma take_fresh_hash indeterminate o n :
  o + n ≤ 5 * HASH512_SIZE →
  take n (drop o (fresh_hash indeterminate)) = map indeterminate (seq o n).
Proof.
  intros H. unfold fresh_hash.
  rewrite List.skipn_map, List.firstn_map, List.skipn_seq, take_seq.
  unfold HASH512_SIZE in H. simpl. do 2 f_equal; lia.
Qed.

Section Sequences.

Variables blake512 groestl512 cubehash512 shavite512 echo512 : sph_hash.
Variable indeterminate : nat → byte.

(** X8.  When the last primitive closes with [k <= 32] bytes, the result
    the caller receives is those [k] bytes followed by the [32 - k]
    bytes that [hash[4]] held behind them before the call: what was on
    the stack reaches the caller. *)
Theorem HashX11_short_digest_leaks s pbegin pend pResult :
  all_fit_row blake512 groestl512 cubehash512 shavite512 echo512 →
  valid_call (st_mem s) pbegin pend pResult →
  let d5 :=
    digest5 blake512 groestl512 cubehash512 shavite512 echo512
      indeterminate (input_of (st_mem s) pbegin pend) in
  length d5 ≤ HASH256_SIZE →
  ∃ s',
    HashX11 blake512 groestl512 cubehash512 shavite512 echo512
      indeterminate pbegin pend pResult s = Some (true, s')
    ∧ result_of (st_mem s') pResult
      = d5 ++ map indeterminate
                (seq (4 * HASH512_SIZE + length d5)
                     (HASH256_SIZE - length d5)).
Proof.
  intros Hfit Hcall d5 Hk.
  destruct (HashX11_run _ _ _ _ _ indeterminate s pbegin pend pResult
              Hfit Hcall) as (s' & Hrun & _ & Hmem & _).
  exists s'. split; [exact Hrun|].
  assert (Hrow : take HASH256_SIZE
                   (row5 blake512 groestl512 cubehash512 shavite512 echo512
                      indeterminate (input_of (st_mem s) pbegin pend))
                 = d5 ++ map indeterminate
                           (seq (4 * HASH512_SIZE + length d5)
                                (HASH256_SIZE - length d5))).
  { unfold row5, row_after. fold d5.
    rewrite take_app_ge by done. f_equal.
    rewrite take_take.
    unfold HASH512_SIZE, HASH256_SIZE in *.
    rewrite Nat.min_l by lia.
    apply take_fresh_hash. unfold HASH512_SIZE. lia. }
  rewrite Hrow in Hmem.
  eapply result_of_splice; [exact Hmem | |].
  - rewrite length_app, length_map, length_seq. lia.
  - by destruct Hcall as (_ & _ & _ & _ & _ & _ & ?).
Qed.

Hypothesis contract :
  all_write_512 blake512 groestl512 cubehash512 shavite512 echo512.

(** X9.  Hashing the result of a call again gives the digest of the
    digest: a call, followed by a call on the 32 bytes the first one
    left at [pResult], leaves [X11 (X11 input)] at the second result
    pointer, which may be [pResult] itself. *)
Theorem HashX11_twice s pbegin pend pResult pResult2 :
  valid_call (st_mem s) pbegin pend pResult →
  caller_owned pResult2 →
  pResult2.2 + HASH256_SIZE ≤ length (st_mem s pResult2.1) →
  (Z.of_nat (length (st_mem s pResult.1)) < 2 ^ SIZE_WIDTH)%Z →
  ∃ s2,
    (HashX11 blake512 groestl512 cubehash512 shavite512 echo512
       indeterminate pbegin pend pResult ;;;
     HashX11 blake512 groestl512 cubehash512 shavite512 echo512
       indeterminate pResult (ptr_add pResult HASH256_SIZE) pResult2)%M s
    = Some (true, s2)
    ∧ result_of (st_mem s2) pResult2
      = X11 blake512 groestl512 cubehash512 shavite512 echo512
          (X11 blake512 groestl512 cubehash512 shavite512 echo512
             (input_of (st_mem s) pbegin pend)).
Proof.
  intros Hcall Hown2 Hin2 Hsz.
  destruct (HashX11_run_512 _ _ _ _ _ indeterminate contract s pbegin pend
              pResult Hcall) as (s1 & Hrun1 & _ & Hmem1 & Hres1 & Hframe1).
  pose proof Hcall as (_ & _ & _ & _ & _ & HownR & HinR).
  pose proof (length_X11 _ _ _ _ _ contract
                (input_of (st_mem s) pbegin pend)) as HlenX.
  assert (Hlen1 : length (st_mem s1 pResult.1)
                  = length (st_mem s pResult.1)).
  { rewrite Hmem1. apply length_splice. rewrite HlenX. exact HinR. }
  assert (Hlen2 : length (st_mem s1 pResult2.1)
                  = length (st_mem s pResult2.1)).
  { destruct (decide (pResult2.1 = pResult.1)) as [E|N].
    - by rewrite E.
    - rewrite Hframe1; [done | done |]. by apply caller_owned_not_hash. }
  assert (Hcall2 : valid_call (st_mem s1) pResult
                     (ptr_add pResult HASH256_SIZE) pResult2).
  { unfold valid_call, ptr_add. simpl. rewrite Hlen1, Hlen2.
    repeat split; try done; lia. }
  assert (Hin1 : input_of (st_mem s1) pResult (ptr_add pResult HASH256_SIZE)
                 = X11 blake512 groestl512 cubehash512 shavite512 echo512
                     (input_of (st_mem s) pbegin pend)).
  { rewrite <- Hres1. unfold input_of, result_of, ptr_add. simpl.
    do 2 f_equal. lia. }
  destruct (HashX11_run_512 _ _ _ _ _ indeterminate contract s1 pResult
              (ptr_add pResult HASH256_SIZE) pResult2 Hcall2)
    as (s2 & Hrun2 & _ & _ & Hres2 & _).
  exists s2. split.
  - by rewrite (bind_run _ _ _ _ _ Hrun1).
  - by rewrite Hres2, Hin1.
Qed.

(** X10.  A message of at least 32 bytes can be hashed in place: with
    [pResult == pbegin] the digest is that of the message as it was, its
    first 32 bytes are replaced by the digest and the rest of it is
    kept. *)
Theorem HashX11_in_place s pbegin pend :
  valid_call (st_mem s) pbegin pend pbegin →
  pbegin.2 + HASH256_SIZE ≤ pend.2 →
  ∃ s',
    HashX11 blake512 groestl512 cubehash512 shavite512 echo512
      indeterminate pbegin pend pbegin s = Some (true, s')
    ∧ input_of (st_mem s') pbegin pend
      = X11 blake512 groestl512 cubehash512 shavite512 echo512
          (input_of (st_mem s) pbegin pend)
        ++ drop HASH256_SIZE (input_of (st_mem s) pbegin pend).
Proof.
  intros Hcall Hbig.
  destruct (HashX11_run_512 _ _ _ _ _ indeterminate contract s pbegin pend
              pbegin Hcall) as (s' & Hrun & _ & Hmem & _).
  pose proof Hcall as (_ & _ & Hle & Hin & _ & _ & HinR).
  pose proof (length_X11 _ _ _ _ _ contract
                (input_of (st_mem s) pbegin pend)) as HlenX.
  exists s'. split; [exact Hrun|].
  unfold input_of at 1. rewrite Hmem.
  rewrite read_splice by (rewrite ?HlenX; lia).
  f_equal. rewrite HlenX. unfold input_of.
  rewrite <- drop_drop.
  rewrite take_drop_commute. do 2 f_equal. lia.
Qed.

End Sequences.

Lemma splice_next_row (pre d l : list byte) o :
  length pre = o →
  o + length d ≤ length l →
  splice o d (pre ++ drop o l) = (pre ++ d) ++ drop (o + length d) l.
Proof.
  intros Hpre Hin. subst o.
  rewrite splice_app_row by (rewrite length_drop; lia).
  rewrite drop_drop, <- app_assoc. done.
Qed.

Lemma splice_twice o (bs l : list byte) :
  o + length bs ≤ length l →
  splice o bs (splice o bs l) = splice o bs l.
Proof.
  intros H. unfold splice at 1.
  rewrite take_splice_below by lia.
  rewrite drop_splice_above by lia. done.
Qed.

Section Rows.

Variables blake512 groestl512 cubehash512 shavite512 echo512 : sph_hash.
Variable indeterminate : nat → byte.

Hypothesis contract :
  all_write_512 blake512 groestl512 cubehash512 shavite512 echo512.

(** The run of [HashX11_run_512], with what it leaves in [hash]. *)
Lemma HashX11_rows s pbegin pend pResult :
  valid_call (st_mem s) pbegin pend pResult →
  ∃ s',
    HashX11 blake512 groestl512 cubehash512 shavite512 echo512
      indeterminate pbegin pend pResult s = Some (true, s')
    ∧ st_mem s' Local_hash
      = chain1 blake512 (input_of (st_mem s) pbegin pend)
        ++ chain2 blake512 groestl512 (input_of (st_mem s) pbegin pend)
        ++ chain3 blake512 groestl512 cubehash512
             (input_of (st_mem s) pbegin pend)
        ++ chain4 blake512 groestl512 cubehash512 shavite512
             (input_of (st_mem s) pbegin pend)
        ++ chain5 blake512 groestl512 cubehash512 shavite512 echo512
             (input_of (st_mem s) pbegin pend).
Proof.
  intros Hcall.
  destruct (HashX11_run_512 _ _ _ _ _ indeterminate contract s pbegin pend
              pResult Hcall) as (s' & Hrun & Hlog & _).
  exists s'. split; [exact Hrun|].
  set (input := input_of (st_mem s) pbegin pend) in *.
  destruct (length_chain _ _ _ _ _ contract input)
    as (H1 & H2 & H3 & H4 & H5).
  apply HashX11_inv in Hrun
    as (_ & _ & input' & r1 & r2 & r3 & r4 & m1 & m2 & m3 & m4 & m5 & H).
  cbv zeta in H.
  destruct H as (_ & S1 & _ & S2 & _ & S3 & _ & S4 & _ & S5 & Ht).
  apply trim256_loop_keeps in Ht as (Hlog' & _ & Hframe).
  cbn [st_mem st_log] in Hlog', Hframe.
  rewrite Hlog in Hlog'. apply app_inv_head in Hlog'.
  unfold chain_log, stage_calls in Hlog'. simpl in Hlog'.
  injection Hlog' as _ <- _ <- _ <- _ <- _ <- _.
  change (sph_digest blake512 input) with (chain1 blake512 input) in *.
  change (sph_digest groestl512 (chain1 blake512 input))
    with (chain2 blake512 groestl512 input) in *.
  change (sph_digest cubehash512 (chain2 blake512 groestl512 input))
    with (chain3 blake512 groestl512 cubehash512 input) in *.
  change (sph_digest shavite512
            (chain3 blake512 groestl512 cubehash512 input))
    with (chain4 blake512 groestl512 cubehash512 shavite512 input) in *.
  change (sph_digest echo512
            (chain4 blake512 groestl512 cubehash512 shavite512 input))
    with (chain5 blake512 groestl512 cubehash512 shavite512 echo512 input)
    in *.
  apply store_hash_inv in S1 as (_ & _ & E1 & _).
  apply store_hash_inv in S2 as (_ & _ & E2 & _).
  apply store_hash_inv in S3 as (_ & _ & E3 & _).
  apply store_hash_inv in S4 as (_ & _ & E4 & _).
  apply store_hash_inv in S5 as (_ & _ & E5 & _).
  pose proof (length_fresh_hash indeterminate) as Hf.
  rewrite mem_set_same in E1.
  unfold HASH512_SIZE in *.
  rewrite Hframe
    by (simpl; apply not_eq_sym, caller_owned_not_hash;
        by destruct Hcall as (_ & _ & _ & _ & _ & ? & _)).
  rewrite E5, E4, E3, E2, E1.
  rewrite (splice_next_row [] _ (fresh_hash indeterminate) (0 * 64))
    by (simpl; lia).
  rewrite H1. simpl app at 1.
  rewrite (splice_next_row _ _ (fresh_hash indeterminate) (1 * 64))
    by (simpl; lia).
  rewrite H2.
  rewrite (splice_next_row _ _ (fresh_hash indeterminate) (2 * 64))
    by (rewrite ?length_app; simpl; lia).
  rewrite H3.
  rewrite (splice_next_row _ _ (fresh_hash indeterminate) (3 * 64))
    by (rewrite ?length_app; simpl; lia).
  rewrite H4.
  rewrite (splice_next_row _ _ (fresh_hash indeterminate) (4 * 64))
    by (rewrite ?length_app; simpl; lia).
  rewrite H5.
  rewrite drop_ge by (rewrite Hf; simpl; lia).
  rewrite app_nil_r, <- !app_assoc. done.
Qed.

(** X11.  [hash] is not cleared: when the call returns its five rows hold
    the five digests of the chain, one after the other. *)
Theorem HashX11_leaves_digests s pbegin pend pResult :
  valid_call (st_mem s) pbegin pend pResult →
  let input := input_of (st_mem s) pbegin pend in
  ∃ s',
    HashX11 blake512 groestl512 cubehash512 shavite512 echo512
      indeterminate pbegin pend pResult s = Some (true, s')
    ∧ st_mem s' Local_hash
      = sph_digest blake512 input
        ++ sph_digest groestl512 (sph_digest blake512 input)
        ++ sph_digest cubehash512
             (sph_digest groestl512 (sph_digest blake512 input))
        ++ sph_digest shavite512
             (sph_digest cubehash512
                (sph_digest groestl512 (sph_digest blake512 input)))
        ++ sph_digest echo512
             (sph_digest shavite512
                (sph_digest cubehash512
                   (sph_digest groestl512 (sph_digest blake512 input)))).
Proof. intros Hcall. exact (HashX11_rows s pbegin pend pResult Hcall). Qed.

(** X12.  With the result in another object than the message, calling a
    second time with the same arguments changes nothing: the memory
    after the second call is, object by object, the memory after the
    first. *)
Theorem HashX11_again s pbegin pend pResult :
  valid_call (st_mem s) pbegin pend pResult →
  pResult.1 ≠ pbegin.1 →
  ∃ s1 s2,
    HashX11 blake512 groestl512 cubehash512 shavite512 echo512
      indeterminate pbegin pend pResult s = Some (true, s1)
    ∧ HashX11 blake512 groestl512 cubehash512 shavite512 echo512
        indeterminate pbegin pend pResult s1 = Some (true, s2)
    ∧ ∀ b, st_mem s2 b = st_mem s1 b.
Proof.
  intros Hcall Hne.
  destruct (HashX11_rows s pbegin pend pResult Hcall) as (s1 & Hrun1 & Hrows1).
  destruct (HashX11_run_512 _ _ _ _ _ indeterminate contract s pbegin pend
              pResult Hcall) as (s1' & Hrun1' & _ & Hmem1 & _ & Hframe1).
  rewrite Hrun1 in Hrun1'. injection Hrun1' as <-.
  pose proof Hcall as (Hown & Hblk & Hle & Hin & Hsz & HownR & HinR).
  pose proof (caller_owned_not_hash _ Hown) as HneH.
  pose proof (caller_owned_not_hash _ HownR) as HneRH.
  pose proof (length_X11 _ _ _ _ _ contract
                (input_of (st_mem s) pbegin pend)) as HlenX.
  assert (Hsame : st_mem s1 pbegin.1 = st_mem s pbegin.1)
    by (apply Hframe1; done).
  assert (Hlen1 : length (st_mem s1 pResult.1)
                  = length (st_mem s pResult.1)).
  { rewrite Hmem1. apply length_splice. rewrite HlenX. exact HinR. }
  assert (Hcall1 : valid_call (st_mem s1) pbegin pend pResult).
  { unfold valid_call. rewrite Hsame, Hlen1. done. }
  assert (Hin1 : input_of (st_mem s1) pbegin pend
                 = input_of (st_mem s) pbegin pend).
  { unfold input_of. by rewrite Hsame. }
  destruct (HashX11_rows s1 pbegin pend pResult Hcall1)
    as (s2 & Hrun2 & Hrows2).
  destruct (HashX11_run_512 _ _ _ _ _ indeterminate contract s1 pbegin pend
              pResult Hcall1) as (s2' & Hrun2' & _ & Hmem2 & _ & Hframe2).
  rewrite Hrun2 in Hrun2'. injection Hrun2' as <-.
  rewrite Hin1 in Hrows2, Hmem2.
  exists s1, s2. split; [exact Hrun1|]. split; [exact Hrun2|].
  intros b.
  destruct (decide (b = Local_hash)) as [->|HbH]; [by rewrite Hrows2|].
  destruct (decide (b = pResult.1)) as [->|HbR]; [|by apply Hframe2].
  rewrite Hmem2, Hmem1. apply splice_twice. rewrite HlenX. exact HinR.
Qed.

End Rows.

(** ** The further properties on the test doubles *)

Lemma trim256_copies_witness :
  ∃ s',
    trim256 (Caller 0, 8) (Caller 0, 0) (demo_state (replicate 40 x10))
    = Some (tt, s')
    ∧ result_of (st_mem s') (Caller 0, 0)
      = result_of (demo_mem (replicate 40 x10)) (Caller 0, 8).
Proof.
  destruct (trim256_copies (Caller 0, 8) (Caller 0, 0)
              (demo_state (replicate 40 x10)))
    as (s' & Hrun & _ & _ & Hres & _).
  - right. simpl. lia.
  - unfold HASH256_SIZE. simpl. lia.
  - unfold HASH256_SIZE. simpl. lia.
  - exists s'. split; [exact Hrun | exact Hres].
Defined.

Lemma trim256_overlap_forward_witness :
  ∃ s',
    trim256 (Caller 0, 0) (Caller 0, 3) (demo_state (replicate 40 x10))
    = Some (tt, s')
    ∧ st_log s' = [].
Proof.
  destruct (trim256_overlap_forward (Caller 0, 0) (Caller 0, 3) 3
              (demo_state (replicate 40 x10)))
    as (s' & Hrun & _ & _ & _ & Hlog).
  - reflexivity.
  - reflexivity.
  - lia.
  - unfold HASH256_SIZE. simpl. lia.
  - exists s'. split; [exact Hrun | exact Hlog].
Defined.

Lemma demo_run_value :
  ∃ s', demo_run [x10; x11] = Some (true, s').
Proof.
  destruct (HashX11_run_512 _ _ _ _ _ (λ _, xaa) demo_contract
              (demo_state [x10; x11]) (Caller 0, 0) (Caller 0, 2)
              (Caller 1, 4) demo_valid) as (s' & Hrun & _).
  by exists s'.
Qed.

Lemma HashX11_completed_witness :
  ∃ s', demo_run [x10; x11] = Some (true, s') ∧ length (st_log s') = 15.
Proof.
  destruct demo_run_value as (s' & Hrun).
  destruct (HashX11_completed (tagged x01) (tagged x02) (tagged x03)
              (tagged x04) (tagged x05) (λ _, xaa)
              (demo_state [x10; x11]) (Caller 0, 0) (Caller 0, 2)
              (Caller 1, 4) true s' Hrun)
    as (_ & input & r1 & r2 & r3 & r4 & _ & _ & _ & _ & Hlog).
  exists s'. split; [exact Hrun|]. rewrite Hlog. reflexivity.
Defined.

Lemma HashX11_closes_inside_hash_witness :
  ∃ s' calls,
    demo_run [x10; x11] = Some (true, s')
    ∧ st_log s' = calls ∧ Forall event_in_hash calls.
Proof.
  destruct demo_run_value as (s' & Hrun).
  destruct (HashX11_closes_inside_hash (tagged x01) (tagged x02)
              (tagged x03) (tagged x04) (tagged x05) (λ _, xaa)
              (demo_state [x10; x11]) (Caller 0, 0) (Caller 0, 2)
              (Caller 1, 4) true s' Hrun)
    as (calls & d5 & Hlog & Hall & _).
  exists s', calls. split; [exact Hrun|]. split; [exact Hlog | exact Hall].
Defined.

Lemma HashX11_defined_witness : is_Some (demo_run [x10; x11]).
Proof.
  apply (HashX11_defined (tagged x01) (tagged x02) (tagged x03)
           (tagged x04) (tagged x05) (λ _, xaa) (demo_state [x10; x11])
           (Caller 0, 0) (Caller 0, 2) (Caller 1, 4)).
  - exact (all_write_fit _ _ _ _ _ demo_contract).
  - exact I.
  - exact I.
  - unfold SIZE_WIDTH. simpl. lia.
  - unfold SIZE_WIDTH. simpl. lia.
  - unfold HASH256_SIZE. simpl. split; [right|]; repeat split; lia.
Defined.

Lemma short_last_fit :
  all_fit_row (tagged x01) (tagged x02) (tagged x03) (tagged x04)
    (constant [x07]).
Proof.
  repeat split; intros cc;
    try (rewrite tagged_writes_512; done).
  unfold HASH512_SIZE. simpl. lia.
Qed.

Lemma HashX11_short_digest_leaks_witness :
  ∃ s',
    HashX11 (tagged x01) (tagged x02) (tagged x03) (tagged x04)
      (constant [x07]) (λ _, xaa) (Caller 0, 0) (Caller 0, 2) (Caller 1, 4)
      (demo_state [x10; x11]) = Some (true, s')
    ∧ result_of (st_mem s') (Caller 1, 4) = x07 :: replicate 31 xaa.
Proof.
  destruct (HashX11_short_digest_leaks (tagged x01) (tagged x02)
              (tagged x03) (tagged x04) (constant [x07]) (λ _, xaa)
              (demo_state [x10; x11]) (Caller 0, 0) (Caller 0, 2)
              (Caller 1, 4) short_last_fit demo_valid)
    as (s' & Hrun & Hres).
  - unfold HASH256_SIZE. simpl. lia.
  - exists s'. split; [exact Hrun | exact Hres].
Defined.

Lemma HashX11_twice_witness :
  ∃ s2,
    (HashX11 (tagged x01) (tagged x02) (tagged x03) (tagged x04)
       (tagged x05) (λ _, xaa) (Caller 0, 0) (Caller 0, 2) (Caller 1, 4) ;;;
     HashX11 (tagged x01) (tagged x02) (tagged x03) (tagged x04)
       (tagged x05) (λ _, xaa) (Caller 1, 4) (Caller 1, 36) (Caller 1, 4))%M
      (demo_state [x10; x11])
    = Some (true, s2).
Proof.
  destruct (HashX11_twice (tagged x01) (tagged x02) (tagged x03)
              (tagged x04) (tagged x05) (λ _, xaa) demo_contract
              (demo_state [x10; x11]) (Caller 0, 0) (Caller 0, 2)
              (Caller 1, 4) (Caller 1, 4) demo_valid)
    as (s2 & Hrun & _).
  - exact I.
  - unfold HASH256_SIZE. simpl. lia.
  - unfold SIZE_WIDTH. simpl. lia.
  - exists s2. exact Hrun.
Defined.

Lemma demo_valid_in_place :
  valid_call (demo_mem (replicate 40 x10)) (Caller 0, 0) (Caller 0, 40)
    (Caller 0, 0).
Proof.
  unfold valid_call, caller_owned, HASH256_SIZE, SIZE_WIDTH. simpl.
  repeat split; lia.
Qed.

Lemma HashX11_in_place_witness :
  ∃ s',
    HashX11 (tagged x01) (tagged x02) (tagged x03) (tagged x04)
      (tagged x05) (λ _, xaa) (Caller 0, 0) (Caller 0, 40) (Caller 0, 0)
      (demo_state (replicate 40 x10)) = Some (true, s')
    ∧ length (input_of (st_mem s') (Caller 0, 0) (Caller 0, 40)) = 40.
Proof.
  destruct (HashX11_in_place (tagged x01) (tagged x02) (tagged x03)
              (tagged x04) (tagged x05) (λ _, xaa) demo_contract
              (demo_state (replicate 40 x10)) (Caller 0, 0) (Caller 0, 40)
              demo_valid_in_place)
    as (s' & Hrun & Hmem).
  - unfold HASH256_SIZE. simpl. lia.
  - exists s'. split; [exact Hrun|]. rewrite Hmem. reflexivity.
Defined.

Lemma HashX11_leaves_digests_witness :
  ∃ s', demo_run [x10; x11] = Some (true, s')
        ∧ length (st_mem s' Local_hash) = 320.
Proof.
  destruct (HashX11_leaves_digests (tagged x01) (tagged x02) (tagged x03)
              (tagged x04) (tagged x05) (λ _, xaa) demo_contract
              (demo_state [x10; x11]) (Caller 0, 0) (Caller 0, 2)
              (Caller 1, 4) demo_valid)
    as (s' & Hrun & Hrows).
  exists s'. split; [exact Hrun|]. rewrite Hrows. reflexivity.
Defined.

Lemma HashX11_again_witness :
  ∃ s1 s2,
    demo_run [x10; x11] = Some (true, s1)
    ∧ HashX11 (tagged x01) (tagged x02) (tagged x03) (tagged x04)
        (tagged x05) (λ _, xaa) (Caller 0, 0) (Caller 0, 2) (Caller 1, 4)
        s1 = Some (true, s2)
    ∧ st_mem s2 (Caller 1) = st_mem s1 (Caller 1).
Proof.
  destruct (HashX11_again (tagged x01) (tagged x02) (tagged x03)
              (tagged x04) (tagged x05) (λ _, xaa) demo_contract
              (demo_state [x10; x11]) (Caller 0, 0) (Caller 0, 2)
              (Caller 1, 4) demo_valid)
    as (s1 & s2 & Hrun1 & Hrun2 & Hsame).
  - discriminate.
  - exists s1, s2. split; [exact Hrun1|]. split; [exact Hrun2|].
    apply Hsame.
Defined.
